(** * AfLogsCleaner: retention of Airflow task logs kept in an object store

    A shallow embedding of [AfLogsCleaner.py].  The class has five methods
    of interest: two path parsers built on the module-level regular
    expressions, the lister, the expiry selector and the deleter.

    Python values are modelled as follows.
    - A [str] is a list of characters; a character is a code point below
      256 (Rocq's [ascii]), read as Latin-1.  On that range Python's [\d]
      is [0-9] and [\w] is [A-Za-z0-9_] together with the Latin-1 letters
      and numerics.
    - [re] is a backtracking matcher: a pattern run on a text gives the
      list of its matches in the order in which backtracking finds them,
      and the engine takes the first.
    - [datetime.date] is a record of year, month and day; the arithmetic
      on ordinals follows the functions of the [datetime] module.
    - exceptions are the [Raise] results of an error monad. *)

From Stdlib Require Import List Ascii String ZArith Lia Bool Arith.
Import ListNotations.

Set Implicit Arguments.

(** ** Python values *)

Definition str := list ascii.

(** A string literal of the source. *)
Definition lit (s : string) : str := list_ascii_of_string s.

(** The exceptions met: three of Python, and the two failures of a
    removal in the store. *)
Inductive exn :=
| TypeError
| ValueError
| OverflowError
| ObjectNotFoundError
| StoreUnavailableError.

Inductive result (A : Type) :=
| Ok (a : A)
| Raise (e : exn).

Arguments Ok {A} a.
Arguments Raise {A} e.

Definition bind {A B} (m : result A) (f : A -> result B) : result B :=
  match m with
  | Ok a => f a
  | Raise e => Raise e
  end.

Notation "x <- m ;; k" := (bind m (fun x => k))
  (at level 61, m at next level, right associativity).

(** ** Character classes of [re] on code points below 256 *)

Module Chars.

Definition code (c : ascii) : N := N_of_ascii c.

Definition between (lo hi : N) (c : ascii) : bool :=
  (N.leb lo (code c) && N.leb (code c) hi)%bool.

(** [\d]: the decimal digits. *)
Definition is_digit (c : ascii) : bool := between 48 57 c.

(** [\D] *)
Definition is_nondigit (c : ascii) : bool := negb (is_digit c).

(** [[A-Za-z0-9_]] *)
Definition is_ascii_word (c : ascii) : bool :=
  (between 97 122 c || between 65 90 c || between 48 57 c
   || N.eqb (code c) 95)%bool.

(** The alphanumeric code points of 128..255: feminine and masculine
    ordinal indicators, superscripts two, three and one, micro sign, the
    vulgar fractions and the letters (all of 192..255 but the
    multiplication and division signs). *)
Definition is_latin1_alnum (c : ascii) : bool :=
  (N.eqb (code c) 170 || between 178 179 c || N.eqb (code c) 181
   || between 185 186 c || between 188 190 c
   || between 192 214 c || between 216 246 c || between 248 255 c)%bool.

(** [\w] of a [str] pattern. *)
Definition is_word (c : ascii) : bool :=
  (is_ascii_word c || is_latin1_alnum c)%bool.

End Chars.

(** ** The fragment of [re] the module uses *)

Module Re.

Inductive regex :=
| Eps
| Chr (c : ascii)
| Cls (p : ascii -> bool)
| Seq (r1 r2 : regex)
| Alt (r1 r2 : regex)
| PlusCls (p : ascii -> bool)
| Group (r : regex).

(** A literal text. *)
Fixpoint Str (l : str) : regex :=
  match l with
  | [] => Eps
  | c :: l' => Seq (Chr c) (Str l')
  end.

(** [r{n}] *)
Fixpoint Rep (n : nat) (r : regex) : regex :=
  match n with
  | O => Eps
  | S n' => Seq r (Rep n' r)
  end.

(** One way of matching a pattern at the start of a text: the text
    consumed, the groups closed so far in order, and what is left. *)
Record mtch := Mtch { text : str; groups : list str; rest : str }.

(** [p+], greedy: the longest run first, then each shorter one. *)
Fixpoint greedy (p : ascii -> bool) (s : str) : list (str * str) :=
  match s with
  | [] => []
  | c :: t =>
      if p c
      then map (fun '(w, u) => (c :: w, u)) (greedy p t) ++ [([c], t)]
      else []
  end.

Definition then_ (m1 m2 : mtch) : mtch :=
  Mtch (text m1 ++ text m2) (groups m1 ++ groups m2) (rest m2).

(** All the matches of [r] at the start of [s], in backtracking order. *)
Fixpoint run (r : regex) (s : str) : list mtch :=
  match r with
  | Eps => [Mtch [] [] s]
  | Chr c =>
      match s with
      | a :: t => if Ascii.eqb a c then [Mtch [a] [] t] else []
      | [] => []
      end
  | Cls p =>
      match s with
      | a :: t => if p a then [Mtch [a] [] t] else []
      | [] => []
      end
  | Seq r1 r2 =>
      flat_map (fun m1 => map (then_ m1) (run r2 (rest m1))) (run r1 s)
  | Alt r1 r2 => run r1 s ++ run r2 s
  | PlusCls p => map (fun '(w, u) => Mtch w [] u) (greedy p s)
  | Group r1 =>
      map (fun m => Mtch (text m) (groups m ++ [text m]) (rest m)) (run r1 s)
  end.

(** [Pattern.match]: anchored at the start of the text. *)
Definition re_match (r : regex) (s : str) : option mtch := hd_error (run r s).

(** [Pattern.search]: the first start position with a match. *)
Fixpoint search (r : regex) (s : str) : option mtch :=
  match run r s with
  | m :: _ => Some m
  | [] =>
      match s with
      | [] => None
      | _ :: t => search r t
      end
  end.

(** [Match.group(n)], [n >= 1]. *)
Definition group (m : mtch) (n : nat) : option str := nth_error (groups m) (n - 1).

End Re.

Import Chars Re.

(** ** The class constants *)

(** ["run_id=\D+__(\d{4}-\d{2}-\d{2})"] *)
Definition regexp_extract_dagrun_dt : regex :=
  Seq (Str (lit "run_id="))
   (Seq (PlusCls is_nondigit)
    (Seq (Str (lit "__"))
     (Group (Seq (Rep 4 (Cls is_digit))
             (Seq (Chr "-")
              (Seq (Rep 2 (Cls is_digit))
               (Seq (Chr "-") (Rep 2 (Cls is_digit))))))))).

(** ["dag_id=(\w+)/"] *)
Definition regexp_extract_dag_name : regex :=
  Seq (Str (lit "dag_id=")) (Seq (Group (PlusCls is_word)) (Chr "/")).

(** [_extract_dag_name_from_path]: the name, or [None] when the function
    falls off its end. *)
Definition _extract_dag_name_from_path (file_path : str) : option str :=
  match search regexp_extract_dag_name file_path with
  | Some match_obj => group match_obj 1
  | None => None
  end.

(** ** The part of [datetime] the class uses *)

Module Datetime.

Local Open Scope Z_scope.

Record date := Date { year : Z; month : Z; day : Z }.

Definition _MAXORDINAL : Z := 3652059.

Definition _DAYS_IN_MONTH : list Z :=
  [-1; 31; 28; 31; 30; 31; 30; 31; 31; 30; 31; 30; 31].

Definition _DAYS_BEFORE_MONTH : list Z :=
  [-1; 0; 31; 59; 90; 120; 151; 181; 212; 243; 273; 304; 334].

Definition index (t : list Z) (i : Z) : Z := nth (Z.to_nat i) t 0.

Definition b2z (b : bool) : Z := if b then 1 else 0.

Definition _is_leap (y : Z) : bool :=
  (y mod 4 =? 0) && (negb (y mod 100 =? 0) || (y mod 400 =? 0)).

Definition _days_before_year (yr : Z) : Z :=
  let y := yr - 1 in
  y * 365 + y / 4 - y / 100 + y / 400.

Definition _days_in_month (y m : Z) : Z :=
  if (m =? 2) && _is_leap y then 29 else index _DAYS_IN_MONTH m.

Definition _days_before_month (y m : Z) : Z :=
  index _DAYS_BEFORE_MONTH m + b2z ((2 <? m) && _is_leap y).

Definition _ymd2ord (y m d : Z) : Z :=
  _days_before_year y + _days_before_month y m + d.

Definition _DI400Y : Z := Eval cbv in _days_before_year 401.
Definition _DI100Y : Z := Eval cbv in _days_before_year 101.
Definition _DI4Y : Z := Eval cbv in _days_before_year 5.

(** The month and day of the [n]-th day (from 0) of a year. *)
Definition _ord2md (leapyear : bool) (n : Z) : Z * Z :=
  let month := Z.shiftr (n + 50) 5 in
  let preceding := index _DAYS_BEFORE_MONTH month + b2z ((2 <? month) && leapyear) in
  if n <? preceding
  then
    let month' := month - 1 in
    let preceding' :=
      preceding - (index _DAYS_IN_MONTH month' + b2z ((month' =? 2) && leapyear)) in
    (month', n - preceding' + 1)
  else (month, n - preceding + 1).

Definition _ord2ymd (n0 : Z) : date :=
  let n := n0 - 1 in
  let n400 := n / _DI400Y in
  let n := n mod _DI400Y in
  let year := n400 * 400 + 1 in
  let n100 := n / _DI100Y in
  let n := n mod _DI100Y in
  let n4 := n / _DI4Y in
  let n := n mod _DI4Y in
  let n1 := n / 365 in
  let n := n mod 365 in
  let year := year + (n100 * 100 + n4 * 4 + n1) in
  if (n1 =? 4) || (n100 =? 4)
  then Date (year - 1) 12 31
  else
    let leapyear := (n1 =? 3) && (negb (n4 =? 24) || (n100 =? 3)) in
    let '(m, d) := _ord2md leapyear n in
    Date year m d.

(** [_check_date_fields], the guard of the constructor of [date]. *)
Definition _check_date_fields (y m d : Z) : result unit :=
  if negb ((1 <=? y) && (y <=? 9999)) then Raise ValueError
  else if negb ((1 <=? m) && (m <=? 12)) then Raise ValueError
  else if negb ((1 <=? d) && (d <=? _days_in_month y m)) then Raise ValueError
  else Ok tt.

Definition new_date (y m d : Z) : result date :=
  _ <- _check_date_fields y m d ;; Ok (Date y m d).

Definition toordinal (d : date) : Z := _ymd2ord (year d) (month d) (day d).

Definition fromordinal (n : Z) : date := _ord2ymd n.

(** [date.__lt__]: the order of the triples. *)
Definition date_lt (a b : date) : bool :=
  (year a <? year b)
  || ((year a =? year b)
      && ((month a <? month b)
          || ((month a =? month b) && (day a <? day b)))).

(** [timedelta(days=n)]; the value is its number of days. *)
Definition timedelta (days : Z) : result Z :=
  if 999999999 <? Z.abs days then Raise OverflowError else Ok days.

(** [date.__add__] of a timedelta of [days] days. *)
Definition date_add (d : date) (days : Z) : result date :=
  let o := toordinal d + days in
  if (0 <? o) && (o <=? _MAXORDINAL) then Ok (fromordinal o)
  else Raise OverflowError.

(** [date.__sub__]: [self + timedelta(-other.days)]. *)
Definition date_sub (d : date) (days : Z) : result date :=
  neg <- timedelta (- days) ;; date_add d neg.

(** [int] of a text of decimal digits. *)
Definition int (s : str) : Z :=
  fold_left (fun acc c => acc * 10 + (Z.of_N (code c) - 48)) s 0.

(** The patterns [_strptime] has for the directives [%Y], [%m], [%d]:
    [(?P<Y>\d\d\d\d)], [(?P<m>1[0-2]|0[1-9]|[1-9])] and
    [(?P<d>3[0-1]|[1-2]\d|0[1-9]|[1-9]| [1-9])]. *)
Definition d19 : regex := Cls (between 49 57).

Definition re_Y : regex := Group (Rep 4 (Cls is_digit)).

Definition re_m : regex :=
  Group (Alt (Seq (Chr "1") (Cls (between 48 50)))
         (Alt (Seq (Chr "0") d19) d19)).

Definition re_d : regex :=
  Group (Alt (Seq (Chr "3") (Cls (between 48 49)))
         (Alt (Seq (Cls (between 49 50)) (Cls is_digit))
          (Alt (Seq (Chr "0") d19)
           (Alt d19 (Seq (Chr " ") d19))))).

(** The pattern it builds for ["%Y-%m-%d"]. *)
Definition format_tail : regex :=
  Seq (Chr "-") (Seq re_m (Seq (Chr "-") re_d)).

Definition format_regex : regex := Seq re_Y format_tail.

(** [datetime.strptime(data_string, "%Y-%m-%d").date()]: the pattern is
    to match at the start of the text and to take all of it; the three
    groups, read as numbers, go to the constructor of the date. *)
Definition strptime_date (data_string : str) : result date :=
  match re_match format_regex data_string with
  | None => Raise ValueError
  | Some found =>
      if negb (Nat.eqb (List.length data_string) (List.length (text found)))
      then Raise ValueError
      else
        match groups found with
        | [gy; gm; gd] => new_date (int gy) (int gm) (int gd)
        | _ => Raise ValueError
        end
  end.

End Datetime.

Import Datetime.

(** ** The object store client

    The class talks to the store through [minio.Minio]; the package is
    not among the sources.  A client is taken as a parameter: a state
    and the two calls the class makes.  A listing is what the iterator
    yields, then an exception if it ends with one; a removal gives the
    next state and the exception it raised, if any. *)

Record Object := { object_name : str; size : Z }.

Definition iter (A : Type) : Type := (list A * option exn)%type.

Record Minio (St : Type) := {
  list_objects : str -> bool -> St -> iter Object;
  remove_object : str -> str -> St -> St * option exn
}.

Record AfLogsCleaner (St : Type) := {
  minio_url : str;
  access_key : str;
  secret_key : str;
  secure_connection_flg : bool;
  dag_logs_bucket : str;
  client : Minio St
}.

(** The store, the requests to remove an object issued so far (bucket
    and name) and the lines printed. *)
Record world (St : Type) := World {
  minio : St;
  removals : list (str * str);
  stdout : list str
}.

(** ** The methods *)

(** [_extract_dagrun_dt_from_path]: the date, [None] when the pattern is
    not found, or the exception of [strptime].  The pattern has one
    group, so [group match_obj 1] is always there. *)
Definition _extract_dagrun_dt_from_path (file_path : str) : result (option date) :=
  match search regexp_extract_dagrun_dt file_path with
  | Some match_obj =>
      match group match_obj 1 with
      | Some dag_run_dt_str =>
          dag_run_dt <- strptime_date dag_run_dt_str ;; Ok (Some dag_run_dt)
      | None => Raise ValueError
      end
  | None => Ok None
  end.

(** [x in dag_names] for a value that is a name or [None]. *)
Definition py_in (x : option str) (dag_names : list str) : bool :=
  match x with
  | Some n => existsb (fun m => if list_eq_dec ascii_dec n m then true else false) dag_names
  | None => false
  end.

(** Truth value of a name or [None]. *)
Definition truthy (x : option str) : bool :=
  match x with
  | Some [] => false
  | Some _ => true
  | None => false
  end.

(** Truth value of the argument [dag_names]. *)
Definition given (dag_names : option (list str)) : option (list str) :=
  match dag_names with
  | Some ((_ :: _) as l) => Some l
  | _ => None
  end.

Definition list_log_files {St} (self : AfLogsCleaner St)
    (dag_names : option (list str)) (st : St) : iter Object :=
  let '(objects, e) := list_objects (client self) (dag_logs_bucket self) true st in
  match given dag_names with
  | Some names =>
      (filter (fun obj => py_in (_extract_dag_name_from_path (object_name obj)) names)
         objects, e)
  | None =>
      (filter (fun obj => truthy (_extract_dag_name_from_path (object_name obj)))
         objects, e)
  end.

(** [dag_run_dt < expire_deadline] *)
Definition lt_deadline (dag_run_dt : option date) (expire_deadline : date) : result bool :=
  match dag_run_dt with
  | Some d => Ok (date_lt d expire_deadline)
  | None => Raise TypeError
  end.

(** The loop of [choose_expired_logs]. *)
Fixpoint choose_loop (expire_deadline : date) (log_files expired_lst : list Object)
  : result (list Object) :=
  match log_files with
  | [] => Ok expired_lst
  | log_file :: more =>
      dag_run_dt <- _extract_dagrun_dt_from_path (object_name log_file) ;;
      expired <- lt_deadline dag_run_dt expire_deadline ;;
      choose_loop expire_deadline more
        (if expired then expired_lst ++ [log_file] else expired_lst)
  end.

(** [choose_expired_logs]; [now_dt] is what [datetime.datetime.now().date()]
    returns at the call, [log_files] the items the iterable gives. *)
Definition choose_expired_logs (now_dt : date) (log_files : list Object)
    (logs_ttl_days : Z) : result (list Object) :=
  delta <- timedelta logs_ttl_days ;;
  expire_deadline <- date_sub now_dt delta ;;
  choose_loop expire_deadline log_files [].

Definition print {St} (line : str) (w : world St) : world St :=
  World (minio w) (removals w) (stdout w ++ [line]).

(** The loop of [delete_expired_logs]. *)
Fixpoint delete_loop {St} (self : AfLogsCleaner St) (log_files : list Object)
    (w : world St) : result unit * world St :=
  match log_files with
  | [] => (Ok tt, w)
  | file :: more =>
      let '(st, failure) :=
        remove_object (client self) (dag_logs_bucket self) (object_name file) (minio w) in
      let w1 := World st (removals w ++ [(dag_logs_bucket self, object_name file)]) (stdout w) in
      match failure with
      | Some e => (Raise e, w1)
      | None =>
          delete_loop self more (print (lit "Deleted logfile: " ++ object_name file) w1)
      end
  end.

Definition delete_expired_logs {St} (self : AfLogsCleaner St) (log_files : list Object)
    (w : world St) : result unit * world St :=
  if (0 <? List.length log_files)%nat
  then delete_loop self log_files w
  else (Ok tt, print (lit "No logfiles to delete") w).

(** ** Vocabulary of the statements *)

(** The text [dag_id=<w>/] stands in [path] after [pre], with [w] a
    non-empty run of word characters. *)
Definition dag_id_at (pre w post path : str) : Prop :=
  path = pre ++ lit "dag_id=" ++ w ++ "/"%char :: post
  /\ w <> [] /\ forallb is_word w = true.

(** No [dag_id=<w>/] stands in [path] before [pre]. *)
Definition first_dag_id (pre path : str) : Prop :=
  forall pre' w' post', dag_id_at pre' w' post' path ->
    List.length pre <= List.length pre'.

(** The shape [dddd-dd-dd]. *)
Definition date_shaped (g : str) : bool :=
  match g with
  | [y1; y2; y3; y4; s1; m1; m2; s2; d1; d2] =>
      forallb is_digit [y1; y2; y3; y4; m1; m2; d1; d2]
      && Ascii.eqb s1 "-" && Ascii.eqb s2 "-"
  | _ => false
  end.

(** The text [run_id=<x>__<g>] stands in [path] after [pre], with [x] a
    non-empty run of characters other than digits and [g] of the shape
    of a date. *)
Definition run_id_at (pre x g post path : str) : Prop :=
  path = pre ++ lit "run_id=" ++ x ++ lit "__" ++ g ++ post
  /\ x <> [] /\ forallb is_nondigit x = true /\ date_shaped g = true.

Definition first_run_id (pre path : str) : Prop :=
  forall pre' x' g' post', run_id_at pre' x' g' post' path ->
    List.length pre <= List.length pre'.

(** The group of the pattern of the execution date. *)
Definition date_re : regex :=
  Seq (Rep 4 (Cls is_digit))
   (Seq (Chr "-")
    (Seq (Rep 2 (Cls is_digit))
     (Seq (Chr "-") (Rep 2 (Cls is_digit))))).

(** The matches of the pattern at the start of a text. *)
Definition dagrun_shape (s : str) (m : mtch) : Prop :=
  exists x g t, s = lit "run_id=" ++ x ++ lit "__" ++ g ++ t /\ x <> []
    /\ forallb is_nondigit x = true /\ date_shaped g = true
    /\ m = Mtch (lit "run_id=" ++ x ++ lit "__" ++ g) [g] t.

(** The objects the lister is to yield, in the words of its contract:
    with no names given (or an empty collection of names), those whose
    path has a workflow name; with names given, those whose workflow name
    is one of them, so none of those without a name. *)
Definition wanted (dag_names : option (list str)) (obj : Object) : bool :=
  match _extract_dag_name_from_path (object_name obj) with
  | None => false
  | Some n =>
      match dag_names with
      | None | Some [] => true
      | Some names => if in_dec (list_eq_dec ascii_dec) n names then true else false
      end
  end.

(** The state of the store after the removals of [files], one after the
    other, when all of them succeed. *)
Fixpoint remove_all {St} (self : AfLogsCleaner St) (files : list Object) (st : St)
  : option St :=
  match files with
  | [] => Some st
  | file :: more =>
      match remove_object (client self) (dag_logs_bucket self) (object_name file) st with
      | (st', None) => remove_all self more st'
      | (_, Some _) => None
      end
  end.

(** The request and the line printed for one removal. *)
Definition request {St} (self : AfLogsCleaner St) (file : Object) : str * str :=
  (dag_logs_bucket self, object_name file).

Definition deleted_line (file : Object) : str :=
  lit "Deleted logfile: " ++ object_name file.

(** A store for the examples: the names it holds.  Removing a name it
    does not hold fails with [ObjectNotFoundError]. *)
Definition names_store : Minio (list str) := {|
  list_objects := fun _ _ st => (map (fun n => Build_Object n 0) st, None);
  remove_object := fun _ name st =>
    if in_dec (list_eq_dec ascii_dec) name st
    then (remove (list_eq_dec ascii_dec) name st, None)
    else (st, Some ObjectNotFoundError)
|}.

Definition cleaner : AfLogsCleaner (list str) := {|
  minio_url := lit "minio:9000";
  access_key := lit "key";
  secret_key := lit "secret";
  secure_connection_flg := false;
  dag_logs_bucket := lit "airflow-logs";
  client := names_store
|}.

Definition log (name : string) : Object := Build_Object (lit name) 0.

(** ** Calendar dates, for the statements *)

Module Calendar.

Local Open Scope Z_scope.

(** The value of a decimal digit. *)
Definition dval (c : ascii) : Z := Z.of_N (code c) - 48.

(** The year, month and day written in a text of the shape [YYYY-MM-DD]. *)
Definition fields (g : str) : option (Z * Z * Z) :=
  match g with
  | [y1; y2; y3; y4; _; m1; m2; _; d1; d2] =>
      Some (1000 * dval y1 + 100 * dval y2 + 10 * dval y3 + dval y4,
            10 * dval m1 + dval m2,
            10 * dval d1 + dval d2)
  | _ => None
  end.

(** Leap years of the Gregorian calendar. *)
Definition leap (y : Z) : Prop :=
  (4 | y) /\ (~ (100 | y) \/ (400 | y)).

(** The length of a month. *)
Definition month_length (y m : Z) (n : Z) : Prop :=
  (m = 2 /\ leap y /\ n = 29)
  \/ (m = 2 /\ ~ leap y /\ n = 28)
  \/ ((m = 4 \/ m = 6 \/ m = 9 \/ m = 11) /\ n = 30)
  \/ ((m = 1 \/ m = 3 \/ m = 5 \/ m = 7 \/ m = 8 \/ m = 10 \/ m = 12) /\ n = 31).

(** The dates that exist, from year 1 to year 9999. *)
Definition calendar_date (y m d : Z) : Prop :=
  1 <= y <= 9999 /\ exists n, month_length y m n /\ 1 <= d <= n.

(** A text of the shape [YYYY-MM-DD] that writes a date that exists. *)
Definition is_calendar_date (g : str) : Prop :=
  exists y m d, fields g = Some (y, m, d) /\ calendar_date y m d.

Definition valid (d : date) : Prop := calendar_date (year d) (month d) (day d).

End Calendar.

Import Calendar.

(** The decimal digits. *)
Definition digits : list ascii := ["0"; "1"; "2"; "3"; "4"; "5"; "6"; "7"; "8"; "9"]%char.

Definition mtch_eq_dec (a b : mtch) : {a = b} + {a <> b}.
Proof.
  decide equality; try apply (list_eq_dec ascii_dec).
  apply (list_eq_dec (list_eq_dec ascii_dec)).
Defined.

(** Month and day of two digits each are within 1..12 and 1..31. *)
Definition month_day_ok (m1 m2 d1 d2 : ascii) : bool :=
  ((1 <=? 10 * dval m1 + dval m2) && (10 * dval m1 + dval m2 <=? 12)
   && (1 <=? 10 * dval d1 + dval d2) && (10 * dval d1 + dval d2 <=? 31))%Z.

(** What the first match of [format_tail] on [-MM-DD] is to be: the whole
    text with the two groups when month and day are in range, and no
    match of the whole text otherwise. *)
Definition tail_check (m1 m2 d1 d2 : ascii) : bool :=
  let s := ["-"; m1; m2; "-"; d1; d2]%char in
  match hd_error (run format_tail s) with
  | Some m =>
      if month_day_ok m1 m2 d1 d2
      then if mtch_eq_dec m (Mtch s [[m1; m2]; [d1; d2]] []) then true else false
      else negb (Nat.eqb (List.length (text m)) 6)
  | None => negb (month_day_ok m1 m2 d1 d2)
  end.

(** The pattern [r] matches at none of the first [n] positions of [s]. *)
Fixpoint no_match_before (r : regex) (n : nat) (s : str) : bool :=
  match n with
  | O => true
  | S n' =>
      match run r s with
      | [] => match s with [] => true | _ :: t => no_match_before r n' t end
      | _ :: _ => false
      end
  end.

(** Lengths of the months and days before them, by whether the year is a
    leap year. *)
Definition days_in_month_l (l : bool) (m : Z) : Z :=
  if ((m =? 2)%Z && l)%bool then 29%Z else index _DAYS_IN_MONTH m.

Definition days_before_month_l (l : bool) (m : Z) : Z :=
  (index _DAYS_BEFORE_MONTH m + b2z ((2 <? m)%Z && l))%Z.

(** [_ord2md] gives the month and day of the day of rank [n] of a year. *)
Definition ord2md_ok (l : bool) (n : Z) : bool :=
  let '(m, d) := _ord2md l n in
  ((1 <=? m) && (m <=? 12) && (1 <=? d) && (d <=? days_in_month_l l m)
   && (days_before_month_l l m + d =? n + 1))%Z.

(** The execution date of a log file, when its path has one. *)
Definition execution_date (f : Object) : option date :=
  match _extract_dagrun_dt_from_path (object_name f) with
  | Ok (Some d) => Some d
  | _ => None
  end.

Definition parseable (f : Object) : Prop :=
  exists d, _extract_dagrun_dt_from_path (object_name f) = Ok (Some d).

(** The execution date is strictly before the day [ttl_days] days before
    [now_dt], in numbers of days. *)
Definition expired (now_dt : date) (ttl_days : Z) (f : Object) : bool :=
  match execution_date f with
  | Some d => (toordinal d <? toordinal now_dt - ttl_days)%Z
  | None => false
  end.

(** The execution date is before [deadline], in the order of dates. *)
Definition before_deadline (deadline : date) (f : Object) : bool :=
  match execution_date f with
  | Some d => date_lt d deadline
  | None => false
  end.

(** The day after a date. *)
Definition tomorrow (d : date) : date :=
  if (day d <? _days_in_month (year d) (month d))%Z
  then Date (year d) (month d) (day d + 1)
  else if (month d <? 12)%Z
       then Date (year d) (month d + 1) 1
       else Date (year d + 1) 1 1.
(** * Properties *)

Unset Implicit Arguments.

(** ** The matcher *)

Lemma hd_error_unique (A : Type) (l : list A) (a : A) :
  In a l -> (forall x, In x l -> x = a) -> hd_error l = Some a.
Proof.
  destruct l as [|x l]; simpl; [tauto|].
  intros _ H. f_equal. apply H. now left.
Qed.

Lemma run_nil_iff (r : regex) (s : str) :
  run r s = [] <-> forall m, ~ In m (run r s).
Proof.
  split.
  - intros E m. rewrite E. simpl. tauto.
  - intros H. destruct (run r s) as [|m l]; [reflexivity|].
    exfalso. apply (H m). now left.
Qed.

Lemma in_greedy (p : ascii -> bool) (s w u : str) :
  In (w, u) (greedy p s) <-> w <> [] /\ forallb p w = true /\ s = w ++ u.
Proof.
  revert w u. induction s as [|c t IH]; intros w u; simpl.
  - split; [tauto|]. intros (Hw & _ & E).
    destruct w; [congruence|discriminate].
  - destruct (p c) eqn:Hc.
    + rewrite in_app_iff, in_map_iff. split.
      * intros [((w', u') & E & Hin) | [E | []]].
        -- inversion E; subst. apply IH in Hin. destruct Hin as (_ & Hp & ->).
           split; [discriminate|]. simpl. now rewrite Hc, Hp.
        -- inversion E; subst. simpl. rewrite Hc. repeat split. discriminate.
      * intros (Hw & Hp & E). destruct w as [|a w]; [congruence|].
        simpl in *. inversion E; subst.
        apply andb_prop in Hp as [_ Hp]. destruct w as [|b w].
        -- right. left. reflexivity.
        -- left. exists (b :: w, u). split; [reflexivity|].
           apply IH. repeat split; [discriminate|assumption].
    + split; [intros []|]. intros (Hw & Hp & E).
      destruct w; [congruence|]. simpl in *. inversion E; subst.
      rewrite Hc in Hp. discriminate.
Qed.

Lemma in_run_PlusCls (p : ascii -> bool) (s : str) (m : mtch) :
  In m (run (PlusCls p) s) <->
  exists w u, w <> [] /\ forallb p w = true /\ s = w ++ u /\ m = Mtch w [] u.
Proof.
  simpl. rewrite in_map_iff. split.
  - intros ((w, u) & E & Hin). apply in_greedy in Hin as (? & ? & ?).
    exists w, u. auto.
  - intros (w & u & Hw & Hp & E & ->). exists (w, u). split; [reflexivity|].
    apply in_greedy. auto.
Qed.

Lemma in_run_Seq (r1 r2 : regex) (s : str) (m : mtch) :
  In m (run (Seq r1 r2) s) <->
  exists m1 m2, In m1 (run r1 s) /\ In m2 (run r2 (rest m1)) /\ m = then_ m1 m2.
Proof.
  simpl. rewrite in_flat_map. split.
  - intros (m1 & H1 & H2). apply in_map_iff in H2 as (m2 & E & H2). eauto.
  - intros (m1 & m2 & H1 & H2 & E). exists m1. split; [assumption|].
    apply in_map_iff. eauto.
Qed.

Lemma in_run_Chr (c : ascii) (s : str) (m : mtch) :
  In m (run (Chr c) s) <-> exists t, s = c :: t /\ m = Mtch [c] [] t.
Proof.
  simpl. destruct s as [|a t].
  - split; [contradiction|]. intros (? & ? & _). discriminate.
  - destruct (Ascii.eqb_spec a c) as [->|Hne].
    + split.
      * intros [<-|[]]. eauto.
      * intros (t' & E & ->). inversion E. now left.
    + split; [contradiction|]. intros (t' & E & _). inversion E. congruence.
Qed.

Lemma in_run_Cls (p : ascii -> bool) (s : str) (m : mtch) :
  In m (run (Cls p) s) <-> exists a t, p a = true /\ s = a :: t /\ m = Mtch [a] [] t.
Proof.
  simpl. destruct s as [|a t].
  - split; [contradiction|]. intros (? & ? & _ & ? & _). discriminate.
  - destruct (p a) eqn:Ha.
    + split.
      * intros [<-|[]]. exists a, t. auto.
      * intros (a' & t' & _ & E & ->). inversion E. now left.
    + split; [contradiction|]. intros (a' & t' & Hp & E & _).
      inversion E; subst. congruence.
Qed.

Lemma in_run_Str (l s : str) (m : mtch) :
  In m (run (Str l) s) <-> exists t, s = l ++ t /\ m = Mtch l [] t.
Proof.
  revert s m. induction l as [|c l IH]; intros s m.
  - simpl. split.
    + intros [<-|[]]. eauto.
    + intros (t & -> & ->). now left.
  - change (Str (c :: l)) with (Seq (Chr c) (Str l)). rewrite in_run_Seq. split.
    + intros (m1 & m2 & H1 & H2 & ->).
      apply in_run_Chr in H1 as (t & -> & ->). simpl in H2.
      apply IH in H2 as (t' & -> & ->). exists t'. split; reflexivity.
    + intros (t & -> & ->). exists (Mtch [c] [] (l ++ t)), (Mtch l [] t).
      split; [rewrite in_run_Chr; exists (l ++ t); auto|].
      split; [cbn [rest]; rewrite IH; exists t; auto|reflexivity].
Qed.

Lemma in_run_Rep_Cls (p : ascii -> bool) (n : nat) (s : str) (m : mtch) :
  In m (run (Rep n (Cls p)) s) <->
  exists w t, List.length w = n /\ forallb p w = true /\ s = w ++ t /\ m = Mtch w [] t.
Proof.
  revert s m. induction n as [|n IH]; intros s m.
  - simpl. split.
    + intros [<-|[]]. exists [], s. auto.
    + intros (w & t & Hl & _ & -> & ->). destruct w; [now left|discriminate].
  - change (Rep (S n) (Cls p)) with (Seq (Cls p) (Rep n (Cls p))).
    rewrite in_run_Seq. split.
    + intros (m1 & m2 & H1 & H2 & ->).
      apply in_run_Cls in H1 as (a & t & Ha & -> & ->). simpl in H2.
      apply IH in H2 as (w & t' & Hl & Hp & -> & ->).
      exists (a :: w), t'. simpl. rewrite Ha, Hp, Hl. auto.
    + intros (w & t & Hl & Hp & -> & ->). destruct w as [|a w]; [discriminate|].
      simpl in Hl, Hp. apply andb_prop in Hp as [Ha Hp].
      exists (Mtch [a] [] (w ++ t)), (Mtch w [] t).
      split; [rewrite in_run_Cls; exists a, (w ++ t); auto|].
      split; [cbn [rest]; rewrite IH; exists w, t; auto|reflexivity].
Qed.

Lemma in_run_Group (r : regex) (s : str) (m : mtch) :
  In m (run (Group r) s) <->
  exists m1, In m1 (run r s) /\ m = Mtch (text m1) (groups m1 ++ [text m1]) (rest m1).
Proof.
  simpl. rewrite in_map_iff. split; intros (m1 & H1 & H2); eauto.
Qed.

(** What a match consumes and what it leaves make up the text. *)
Lemma run_splits (r : regex) (s : str) (m : mtch) :
  In m (run r s) -> s = text m ++ rest m.
Proof.
  revert s m. induction r; intros s m Hin.
  - simpl in Hin. destruct Hin as [<-|[]]. reflexivity.
  - apply in_run_Chr in Hin as (t & -> & ->). reflexivity.
  - apply in_run_Cls in Hin as (a & t & _ & -> & ->). reflexivity.
  - apply in_run_Seq in Hin as (m1 & m2 & H1 & H2 & ->).
    apply IHr1 in H1. apply IHr2 in H2. simpl.
    rewrite <- app_assoc, <- H2. exact H1.
  - simpl in Hin. apply in_app_iff in Hin as [H|H]; auto.
  - apply in_run_PlusCls in Hin as (w & u & _ & _ & -> & ->). reflexivity.
  - apply in_run_Group in Hin as (m1 & H1 & ->). simpl. auto.
Qed.

(** A run of a class stops where the class stops. *)
Lemma span_unique (p : ascii -> bool) (w w' : str) (a a' : ascii) (t t' : str) :
  forallb p w = true -> forallb p w' = true -> p a = false -> p a' = false ->
  w ++ a :: t = w' ++ a' :: t' -> w = w' /\ a = a' /\ t = t'.
Proof.
  revert w'. induction w as [|c w IH]; intros [|c' w'] Hw Hw' Ha Ha' E;
    simpl in *; inversion E; subst.
  - auto.
  - apply andb_prop in Hw' as [Hc _]. congruence.
  - apply andb_prop in Hw as [Hc _]. congruence.
  - apply andb_prop in Hw as [_ Hw]. apply andb_prop in Hw' as [_ Hw'].
    destruct (IH w' Hw Hw' Ha Ha' H1) as (-> & -> & ->). auto.
Qed.

(** [search] returns the match at the first position that has one. *)
Lemma search_Some (r : regex) (s : str) (m : mtch) :
  search r s = Some m <->
  exists pre t, s = pre ++ t /\ re_match r t = Some m /\
    forall pre' t', s = pre' ++ t' -> List.length pre' < List.length pre -> run r t' = [].
Proof.
  unfold re_match. revert m. induction s as [|c s IH]; intros m.
  - simpl. destruct (run r []) as [|m0 l] eqn:E.
    + split; [discriminate|]. intros (pre & t & Hs & Hm & _).
      symmetry in Hs. apply app_eq_nil in Hs as [-> ->]. rewrite E in Hm. discriminate.
    + split.
      * intros [= <-]. exists [], []. rewrite E. repeat split.
        intros ? ? _ H. inversion H.
      * intros (pre & t & Hs & Hm & _).
        symmetry in Hs. apply app_eq_nil in Hs as [-> ->]. rewrite E in Hm. exact Hm.
  - simpl. destruct (run r (c :: s)) as [|m0 l] eqn:E.
    + rewrite IH. split.
      * intros (pre & t & -> & Hm & Hfirst). exists (c :: pre), t.
        repeat split; [assumption|].
        intros [|c' pre'] t' Hs Hlen; simpl in *.
        -- subst t'. exact E.
        -- inversion Hs; subst. apply (Hfirst pre' t' H1). lia.
      * intros ([|c' pre] & t & Hs & Hm & Hfirst); simpl in Hs.
        -- subst t. rewrite E in Hm. discriminate.
        -- inversion Hs; subst. exists pre, t. repeat split; [assumption|].
           intros pre' t' Hs' Hlen.
           apply (Hfirst (c' :: pre') t'); simpl; [now rewrite Hs'|lia].
    + split.
      * intros [= <-]. exists [], (c :: s). rewrite E. repeat split.
        intros ? ? _ H. inversion H.
      * intros ([|c' pre] & t & Hs & Hm & Hfirst); simpl in Hs.
        -- subst t. rewrite E in Hm. exact Hm.
        -- exfalso. assert (H : run r (c :: s) = []).
           { apply (Hfirst [] (c :: s)); simpl; [reflexivity|lia]. }
           rewrite E in H. discriminate.
Qed.

Lemma search_None (r : regex) (s : str) :
  search r s = None <-> forall pre t, s = pre ++ t -> run r t = [].
Proof.
  induction s as [|c s IH].
  - simpl. destruct (run r []) as [|m0 l] eqn:E.
    + split; [|reflexivity]. intros _ pre t Hs.
      symmetry in Hs. apply app_eq_nil in Hs as [-> ->]. exact E.
    + split; [discriminate|]. intros H. specialize (H [] [] eq_refl).
      rewrite E in H. discriminate.
  - simpl. destruct (run r (c :: s)) as [|m0 l] eqn:E.
    + rewrite IH. split.
      * intros H [|c' pre] t Hs; simpl in Hs.
        -- subst t. exact E.
        -- inversion Hs; subst. apply (H pre t eq_refl).
      * intros H pre t ->. apply (H (c :: pre) t eq_refl).
    + split; [discriminate|]. intros H. specialize (H [] (c :: s) eq_refl).
      rewrite E in H. discriminate.
Qed.

(** ** The pattern of the workflow name *)

Lemma hd_error_in (A : Type) (l : list A) (a : A) : hd_error l = Some a -> In a l.
Proof. destruct l; simpl; [discriminate|]. intros [= ->]. now left. Qed.

Lemma in_run_dag_name (s : str) (m : mtch) :
  In m (run regexp_extract_dag_name s) <->
  exists w t, s = lit "dag_id=" ++ w ++ "/"%char :: t /\ w <> []
    /\ forallb is_word w = true
    /\ m = Mtch (lit "dag_id=" ++ w ++ ["/"%char]) [w] t.
Proof.
  unfold regexp_extract_dag_name. rewrite in_run_Seq. split.
  - intros (m1 & m2 & H1 & H2 & ->).
    apply in_run_Str in H1 as (t & -> & ->). cbn [rest] in H2.
    apply in_run_Seq in H2 as (m3 & m4 & H3 & H4 & ->).
    apply in_run_Group in H3 as (m5 & H5 & ->).
    apply in_run_PlusCls in H5 as (w & u & Hw & Hp & -> & ->).
    cbn [rest] in H4. apply in_run_Chr in H4 as (t' & -> & ->).
    exists w, t'. repeat split; assumption.
  - intros (w & t & -> & Hw & Hp & ->).
    exists (Mtch (lit "dag_id=") [] (w ++ "/"%char :: t)),
           (Mtch (w ++ ["/"%char]) [w] t).
    split; [rewrite in_run_Str; eauto|].
    split; [|reflexivity]. cbn [rest]. rewrite in_run_Seq.
    exists (Mtch w [w] ("/"%char :: t)), (Mtch ["/"%char] [] t).
    split; [|split; [rewrite in_run_Chr; exists t; auto|reflexivity]].
    rewrite in_run_Group. exists (Mtch w [] ("/"%char :: t)).
    split; [|reflexivity]. rewrite in_run_PlusCls. exists w, ("/"%char :: t). auto.
Qed.

Lemma dag_name_unique (w w' t t' : str) :
  forallb is_word w = true -> forallb is_word w' = true ->
  lit "dag_id=" ++ w ++ "/"%char :: t = lit "dag_id=" ++ w' ++ "/"%char :: t' ->
  w = w' /\ t = t'.
Proof.
  intros Hw Hw' E. apply app_inv_head in E.
  destruct (span_unique is_word w w' "/"%char "/"%char t t' Hw Hw' eq_refl eq_refl E) as (-> & _ & ->).
  auto.
Qed.

Lemma match_dag_name (s : str) (m : mtch) :
  re_match regexp_extract_dag_name s = Some m <->
  exists w t, s = lit "dag_id=" ++ w ++ "/"%char :: t /\ w <> []
    /\ forallb is_word w = true
    /\ m = Mtch (lit "dag_id=" ++ w ++ ["/"%char]) [w] t.
Proof.
  unfold re_match. split.
  - intros H. apply hd_error_in in H. now apply in_run_dag_name.
  - intros (w & t & -> & Hw & Hp & ->). apply hd_error_unique.
    + apply in_run_dag_name. exists w, t. auto.
    + intros x Hx. apply in_run_dag_name in Hx as (w' & t' & E & _ & Hp' & ->).
      destruct (dag_name_unique w w' t t' Hp Hp' E) as [-> ->]. reflexivity.
Qed.

Lemma run_dag_name_nil (s : str) :
  run regexp_extract_dag_name s = [] <->
  forall w t, s = lit "dag_id=" ++ w ++ "/"%char :: t -> w <> [] ->
    forallb is_word w = true -> False.
Proof.
  rewrite run_nil_iff. split.
  - intros H w t -> Hw Hp.
    apply (H (Mtch (lit "dag_id=" ++ w ++ ["/"%char]) [w] t)).
    apply in_run_dag_name. exists w, t. auto.
  - intros H m Hm. apply in_run_dag_name in Hm as (w & t & E & Hw & Hp & _). eauto.
Qed.

Lemma dag_name_Some (path w : str) :
  _extract_dag_name_from_path path = Some w <->
  exists pre post, dag_id_at pre w post path /\ first_dag_id pre path.
Proof.
  unfold _extract_dag_name_from_path. split.
  - destruct (search regexp_extract_dag_name path) as [m|] eqn:E; [|discriminate].
    apply search_Some in E as (pre & t & -> & Hm & Hfirst).
    apply match_dag_name in Hm as (w0 & t0 & -> & Hw & Hp & ->).
    cbn. intros [= <-]. exists pre, t0. split; [repeat split; assumption|].
    intros pre' w' post' (E' & Hw' & Hp').
    destruct (le_lt_dec (List.length pre) (List.length pre')) as [|Hlt]; [assumption|].
    exfalso. pose proof (Hfirst _ _ E' Hlt) as Hnil.
    rewrite run_dag_name_nil in Hnil. exact (Hnil w' post' eq_refl Hw' Hp').
  - intros (pre & post & (-> & Hw & Hp) & Hleft).
    assert (E : search regexp_extract_dag_name
                  (pre ++ lit "dag_id=" ++ w ++ "/"%char :: post)
                = Some (Mtch (lit "dag_id=" ++ w ++ ["/"%char]) [w] post)).
    { apply search_Some. exists pre, (lit "dag_id=" ++ w ++ "/"%char :: post).
      split; [reflexivity|]. split.
      - apply match_dag_name. exists w, post. auto.
      - intros pre' t' E' Hlt. apply run_dag_name_nil. intros w' t'' -> Hw' Hp'.
        assert (List.length pre <= List.length pre'); [|lia].
        apply (Hleft pre' w' t''). repeat split; assumption. }
    rewrite E. reflexivity.
Qed.

Lemma dag_name_None (path : str) :
  _extract_dag_name_from_path path = None <->
  forall pre w post, ~ dag_id_at pre w post path.
Proof.
  unfold _extract_dag_name_from_path. split.
  - destruct (search regexp_extract_dag_name path) as [m|] eqn:E.
    + apply search_Some in E as (pre & t & -> & Hm & _).
      apply match_dag_name in Hm as (w0 & t0 & -> & Hw & Hp & ->). discriminate.
    + intros _ pre w post (E' & Hw & Hp).
      rewrite search_None in E. specialize (E _ _ E').
      rewrite run_dag_name_nil in E. exact (E w post eq_refl Hw Hp).
  - intros H.
    assert (E : search regexp_extract_dag_name path = None).
    { apply search_None. intros pre t ->. apply run_dag_name_nil.
      intros w t' -> Hw Hp. apply (H pre w t'). repeat split; assumption. }
    rewrite E. reflexivity.
Qed.

(** An extracted name is never empty. *)
Lemma dag_name_nonempty (path : str) :
  _extract_dag_name_from_path path <> Some [].
Proof.
  intros H. apply dag_name_Some in H as (pre & post & (_ & Hw & _) & _).
  now apply Hw.
Qed.

(** ** The pattern of the execution date *)

(** A pattern whose matches at a position are described by a relation
    that allows one match at most: [search] finds the match of the first
    position that has one. *)
Section FirstMatch.

Variable r : regex.
Variable shape : str -> mtch -> Prop.
Hypothesis run_shape : forall s m, In m (run r s) <-> shape s m.
Hypothesis shape_unique : forall s m m', shape s m -> shape s m' -> m = m'.

Lemma match_shape (s : str) (m : mtch) : re_match r s = Some m <-> shape s m.
Proof.
  unfold re_match. split.
  - intros H. apply run_shape. now apply hd_error_in.
  - intros H. apply hd_error_unique.
    + now apply run_shape.
    + intros x Hx. apply run_shape in Hx. exact (shape_unique s x m Hx H).
Qed.

Lemma run_nil_shape (s : str) : run r s = [] <-> forall m, ~ shape s m.
Proof.
  rewrite run_nil_iff. split; intros H m Hm; apply (H m); now apply run_shape.
Qed.

Lemma search_first (s : str) (m : mtch) :
  search r s = Some m <->
  exists pre t, s = pre ++ t /\ shape t m /\
    forall pre' t' m', s = pre' ++ t' -> shape t' m' ->
      List.length pre <= List.length pre'.
Proof.
  rewrite search_Some. split.
  - intros (pre & t & E & Hm & Hfirst). exists pre, t.
    split; [assumption|]. split; [now apply match_shape|].
    intros pre' t' m' E' Hm'.
    destruct (le_lt_dec (List.length pre) (List.length pre')) as [|Hlt]; [assumption|].
    exfalso. pose proof (Hfirst pre' t' E' Hlt) as Hnil.
    rewrite run_nil_shape in Hnil. exact (Hnil m' Hm').
  - intros (pre & t & E & Hm & Hfirst). exists pre, t.
    split; [assumption|]. split; [now apply match_shape|].
    intros pre' t' E' Hlt. apply run_nil_shape. intros m' Hm'.
    pose proof (Hfirst pre' t' m' E' Hm'). lia.
Qed.

Lemma search_none (s : str) :
  search r s = None <-> forall pre t m, s = pre ++ t -> ~ shape t m.
Proof.
  rewrite search_None. split.
  - intros H pre t m E. apply run_nil_shape. exact (H pre t E).
  - intros H pre t E. apply run_nil_shape. intros m. exact (H pre t m E).
Qed.

End FirstMatch.

Lemma date_shaped_inv (g : str) :
  date_shaped g = true ->
  exists y1 y2 y3 y4 m1 m2 d1 d2,
    g = [y1; y2; y3; y4; "-"; m1; m2; "-"; d1; d2]%char
    /\ is_digit y1 = true /\ is_digit y2 = true /\ is_digit y3 = true
    /\ is_digit y4 = true /\ is_digit m1 = true /\ is_digit m2 = true
    /\ is_digit d1 = true /\ is_digit d2 = true.
Proof.
  intros H.
  destruct g as [|y1 [|y2 [|y3 [|y4 [|s1 [|m1 [|m2 [|s2 [|d1 [|d2 [|]]]]]]]]]]];
    try discriminate H.
  simpl in H.
  repeat match type of H with
         | andb _ _ = true => apply andb_prop in H; destruct H as [H ?]
         end.
  repeat match goal with
         | E : Ascii.eqb _ _ = true |- _ => apply Ascii.eqb_eq in E; subst
         | E : andb _ _ = true |- _ => apply andb_prop in E; destruct E
         end.
  exists y1, y2, y3, y4, m1, m2, d1, d2. repeat split; assumption.
Qed.

Lemma in_run_date_re (s : str) (m : mtch) :
  In m (run date_re s) <->
  exists g t, date_shaped g = true /\ s = g ++ t /\ m = Mtch g [] t.
Proof.
  unfold date_re. split.
  - intros H.
    apply in_run_Seq in H as (m1 & m2 & H1 & H2 & ->).
    apply in_run_Rep_Cls in H1 as (w1 & t1 & L1 & P1 & -> & ->). cbn [rest] in H2.
    apply in_run_Seq in H2 as (m3 & m4 & H3 & H4 & ->).
    apply in_run_Chr in H3 as (t2 & -> & ->). cbn [rest] in H4.
    apply in_run_Seq in H4 as (m5 & m6 & H5 & H6 & ->).
    apply in_run_Rep_Cls in H5 as (w2 & t3 & L2 & P2 & -> & ->). cbn [rest] in H6.
    apply in_run_Seq in H6 as (m7 & m8 & H7 & H8 & ->).
    apply in_run_Chr in H7 as (t4 & -> & ->). cbn [rest] in H8.
    apply in_run_Rep_Cls in H8 as (w3 & t5 & L3 & P3 & -> & ->).
    destruct w1 as [|y1 [|y2 [|y3 [|y4 [|]]]]]; try discriminate L1.
    destruct w2 as [|m1 [|m2 [|]]]; try discriminate L2.
    destruct w3 as [|d1 [|d2 [|]]]; try discriminate L3.
    exists [y1; y2; y3; y4; "-"; m1; m2; "-"; d1; d2]%char, t5.
    split; [|split; reflexivity].
    simpl in P1, P2, P3 |- *.
    repeat match goal with
           | E : andb _ _ = true |- _ => apply andb_prop in E; destruct E
           end.
    repeat match goal with
           | E : is_digit _ = true |- _ => rewrite E; clear E
           end.
    reflexivity.
  - intros (g & t & Hg & -> & ->).
    apply date_shaped_inv in Hg
      as (y1 & y2 & y3 & y4 & m1 & m2 & d1 & d2 & -> & Hy1 & Hy2 & Hy3 & Hy4
          & Hm1 & Hm2 & Hd1 & Hd2).
    simpl. rewrite Hy1. simpl. rewrite Hy2. simpl. rewrite Hy3. simpl.
    rewrite Hy4. simpl. rewrite Hm1. simpl. rewrite Hm2. simpl.
    rewrite Hd1. simpl. rewrite Hd2. simpl. left. reflexivity.
Qed.

Lemma in_run_dagrun_dt (s : str) (m : mtch) :
  In m (run regexp_extract_dagrun_dt s) <-> dagrun_shape s m.
Proof.
  unfold regexp_extract_dagrun_dt, dagrun_shape. fold date_re.
  rewrite in_run_Seq. split.
  - intros (m1 & m2 & H1 & H2 & ->).
    apply in_run_Str in H1 as (t & -> & ->). cbn [rest] in H2.
    apply in_run_Seq in H2 as (m3 & m4 & H3 & H4 & ->).
    apply in_run_PlusCls in H3 as (x & u & Hx & Hp & -> & ->). cbn [rest] in H4.
    apply in_run_Seq in H4 as (m5 & m6 & H5 & H6 & ->).
    apply in_run_Str in H5 as (t' & -> & ->). cbn [rest] in H6.
    apply in_run_Group in H6 as (m7 & H7 & ->).
    apply in_run_date_re in H7 as (g & t'' & Hg & -> & ->).
    exists x, g, t''. repeat split; assumption.
  - intros (x & g & t & -> & Hx & Hp & Hg & ->).
    exists (Mtch (lit "run_id=") [] (x ++ lit "__" ++ g ++ t)),
           (Mtch (x ++ lit "__" ++ g) [g] t).
    split; [rewrite in_run_Str; eauto|]. split; [|reflexivity].
    cbn [rest]. rewrite in_run_Seq.
    exists (Mtch x [] (lit "__" ++ g ++ t)), (Mtch (lit "__" ++ g) [g] t).
    split; [rewrite in_run_PlusCls; exists x, (lit "__" ++ g ++ t); auto|].
    split; [|reflexivity]. cbn [rest]. rewrite in_run_Seq.
    exists (Mtch (lit "__") [] (g ++ t)), (Mtch g [g] t).
    split; [rewrite in_run_Str; eauto|]. split; [|reflexivity].
    cbn [rest]. rewrite in_run_Group. exists (Mtch g [] t).
    split; [|reflexivity]. rewrite in_run_date_re. exists g, t. auto.
Qed.

Lemma dagrun_shape_unique (s : str) (m m' : mtch) :
  dagrun_shape s m -> dagrun_shape s m' -> m = m'.
Proof.
  intros (x & g & t & -> & _ & Hp & Hg & ->) (x' & g' & t' & E & _ & Hp' & Hg' & ->).
  apply app_inv_head in E.
  apply date_shaped_inv in Hg
    as (y1 & y2 & y3 & y4 & m1 & m2 & d1 & d2 & -> & Hy1 & _).
  apply date_shaped_inv in Hg'
    as (z1 & z2 & z3 & z4 & n1 & n2 & e1 & e2 & -> & Hz1 & _).
  assert (E' : (x ++ lit "__") ++ y1 :: ([y2; y3; y4; "-"; m1; m2; "-"; d1; d2]%char ++ t)
               = (x' ++ lit "__") ++ z1 :: ([z2; z3; z4; "-"; n1; n2; "-"; e1; e2]%char ++ t')).
  { rewrite <- !app_assoc. exact E. }
  apply span_unique with (p := is_nondigit) in E' as (Ex & -> & Et).
  - apply app_inv_tail in Ex. subst x'. simpl in Et.
    injection Et as -> -> -> -> -> -> -> ->. reflexivity.
  - rewrite forallb_app, Hp. reflexivity.
  - rewrite forallb_app, Hp'. reflexivity.
  - unfold is_nondigit. now rewrite Hy1.
  - unfold is_nondigit. now rewrite Hz1.
Qed.

Lemma dagrun_search_Some (path : str) (m : mtch) :
  search regexp_extract_dagrun_dt path = Some m <->
  exists pre x g post, run_id_at pre x g post path /\ first_run_id pre path
    /\ m = Mtch (lit "run_id=" ++ x ++ lit "__" ++ g) [g] post.
Proof.
  rewrite (search_first _ _ in_run_dagrun_dt dagrun_shape_unique). split.
  - intros (pre & t & -> & (x & g & post & -> & Hx & Hp & Hg & ->) & Hfirst).
    exists pre, x, g, post. split; [repeat split; assumption|].
    split; [|reflexivity].
    intros pre' x' g' post' (E & Hx' & Hp' & Hg').
    apply (Hfirst pre' _ (Mtch (lit "run_id=" ++ x' ++ lit "__" ++ g') [g'] post') E).
    exists x', g', post'. auto.
  - intros (pre & x & g & post & (-> & Hx & Hp & Hg) & Hfirst & ->).
    exists pre, (lit "run_id=" ++ x ++ lit "__" ++ g ++ post).
    split; [reflexivity|]. split; [exists x, g, post; auto|].
    intros pre' t' m' E (x' & g' & post' & -> & Hx' & Hp' & Hg' & _).
    apply (Hfirst pre' x' g' post'). repeat split; assumption.
Qed.

Lemma dagrun_search_None (path : str) :
  search regexp_extract_dagrun_dt path = None <->
  forall pre x g post, ~ run_id_at pre x g post path.
Proof.
  rewrite (search_none _ _ in_run_dagrun_dt). split.
  - intros H pre x g post (E & Hx & Hp & Hg).
    apply (H pre _ (Mtch (lit "run_id=" ++ x ++ lit "__" ++ g) [g] post) E).
    exists x, g, post. auto.
  - intros H pre t m E (x & g & post & -> & Hx & Hp & Hg & _).
    apply (H pre x g post). repeat split; assumption.
Qed.

(** ** [strptime] on texts of the shape of a date *)

Lemma is_digit_in (c : ascii) : is_digit c = true -> In c digits.
Proof.
  destruct c as [[] [] [] [] [] [] [] []]; intros H; try discriminate H;
    simpl; auto 12.
Qed.

Lemma dval_digit (c : ascii) : is_digit c = true -> (0 <= dval c <= 9)%Z.
Proof.
  intros H. apply is_digit_in in H. simpl in H.
  repeat (destruct H as [<-|H]; [cbv; split; discriminate|]). contradiction.
Qed.

Lemma tail_check_all :
  forallb (fun m1 => forallb (fun m2 => forallb (fun d1 => forallb (fun d2 =>
    tail_check m1 m2 d1 d2) digits) digits) digits) digits = true.
Proof. vm_compute. reflexivity. Qed.

Lemma tail_check_digits (m1 m2 d1 d2 : ascii) :
  is_digit m1 = true -> is_digit m2 = true ->
  is_digit d1 = true -> is_digit d2 = true ->
  tail_check m1 m2 d1 d2 = true.
Proof.
  intros H1 H2 H3 H4. pose proof tail_check_all as H.
  rewrite forallb_forall in H. specialize (H m1 (is_digit_in _ H1)).
  rewrite forallb_forall in H. specialize (H m2 (is_digit_in _ H2)).
  rewrite forallb_forall in H. specialize (H d1 (is_digit_in _ H3)).
  rewrite forallb_forall in H. exact (H d2 (is_digit_in _ H4)).
Qed.

Lemma hd_error_map (A B : Type) (f : A -> B) (l : list A) :
  hd_error (map f l) = option_map f (hd_error l).
Proof. destruct l; reflexivity. Qed.

Lemma is_leap_iff (y : Z) : _is_leap y = true <-> leap y.
Proof.
  unfold _is_leap, leap.
  rewrite andb_true_iff, orb_true_iff, negb_true_iff, !Z.eqb_eq, Z.eqb_neq.
  rewrite <- !Z.mod_divide by discriminate. tauto.
Qed.

Lemma month_length_days_in_month (y m : Z) :
  (1 <= m <= 12)%Z -> month_length y m (_days_in_month y m).
Proof.
  intros Hm. unfold month_length, _days_in_month.
  assert (H : (m = 1 \/ m = 2 \/ m = 3 \/ m = 4 \/ m = 5 \/ m = 6 \/ m = 7
               \/ m = 8 \/ m = 9 \/ m = 10 \/ m = 11 \/ m = 12)%Z) by lia.
  pose proof (is_leap_iff y) as Hl.
  destruct H as [->|[->|[->|[->|[->|[->|[->|[->|[->|[->|[->| ->]]]]]]]]]]];
    cbn [Z.eqb Pos.eqb andb]; try (cbv [index nth Z.to_nat Pos.to_nat Pos.iter_op
      _DAYS_IN_MONTH Init.Nat.add]; tauto).
  destruct (_is_leap y).
  - left. split; [reflexivity|]. split; [now apply Hl|reflexivity].
  - right. left. split; [reflexivity|]. split; [|reflexivity].
    intros H. apply Hl in H. discriminate.
Qed.

Lemma month_length_inv (y m n : Z) :
  month_length y m n -> (1 <= m <= 12)%Z /\ n = _days_in_month y m.
Proof.
  unfold month_length, _days_in_month. pose proof (is_leap_iff y) as Hl.
  intros [(-> & H & ->)|[(-> & H & ->)|[(H & ->)|(H & ->)]]].
  - apply Hl in H. rewrite H. split; [lia|reflexivity].
  - destruct (_is_leap y); [elim H; now apply Hl|]. split; [lia|reflexivity].
  - destruct H as [->|[->|[->| ->]]]; split; try lia; reflexivity.
  - destruct H as [->|[->|[->|[->|[->|[->| ->]]]]]]; split; try lia; reflexivity.
Qed.

Lemma days_in_month_bounds (y m : Z) :
  (1 <= m <= 12)%Z -> (28 <= _days_in_month y m <= 31)%Z.
Proof.
  intros Hm.
  assert (H : (m = 1 \/ m = 2 \/ m = 3 \/ m = 4 \/ m = 5 \/ m = 6 \/ m = 7
               \/ m = 8 \/ m = 9 \/ m = 10 \/ m = 11 \/ m = 12)%Z) by lia.
  unfold _days_in_month.
  destruct H as [->|[->|[->|[->|[->|[->|[->|[->|[->|[->|[->| ->]]]]]]]]]]];
    try (cbv; split; discriminate).
  destruct (_is_leap y); cbv; split; discriminate.
Qed.

Lemma check_date_fields_iff (y m d : Z) :
  _check_date_fields y m d = Ok tt <-> calendar_date y m d.
Proof.
  unfold _check_date_fields, calendar_date. split.
  - destruct ((1 <=? y) && (y <=? 9999))%Z eqn:Hy; [|discriminate].
    destruct ((1 <=? m) && (m <=? 12))%Z eqn:Hm; [|discriminate].
    destruct ((1 <=? d) && (d <=? _days_in_month y m))%Z eqn:Hd; [|discriminate].
    intros _. split; [lia|]. exists (_days_in_month y m).
    split; [apply month_length_days_in_month|]; lia.
  - intros (Hy & n & Hn & Hd). apply month_length_inv in Hn as (Hm & ->).
    replace ((1 <=? y) && (y <=? 9999))%Z with true by lia.
    replace ((1 <=? m) && (m <=? 12))%Z with true by lia.
    replace ((1 <=? d) && (d <=? _days_in_month y m))%Z with true by lia.
    reflexivity.
Qed.

Lemma new_date_calendar (y m d : Z) :
  calendar_date y m d -> new_date y m d = Ok (Date y m d).
Proof.
  intros H. apply check_date_fields_iff in H. unfold new_date. now rewrite H.
Qed.

Lemma new_date_not_calendar (y m d : Z) :
  ~ calendar_date y m d -> new_date y m d = Raise ValueError.
Proof.
  intros H. rewrite <- check_date_fields_iff in H. unfold new_date.
  revert H. unfold _check_date_fields.
  destruct (negb _); [reflexivity|]. destruct (negb _); [reflexivity|].
  destruct (negb _); [reflexivity|]. intros H. now elim H.
Qed.

Lemma new_date_valid (y m d : Z) (dt : date) :
  new_date y m d = Ok dt -> dt = Date y m d /\ calendar_date y m d.
Proof.
  intros H. assert (Hc : _check_date_fields y m d = Ok tt).
  { unfold new_date in H. destruct (_check_date_fields y m d) as [[]|];
      [reflexivity|discriminate]. }
  unfold new_date in H. rewrite Hc in H. injection H as <-.
  split; [reflexivity|now apply check_date_fields_iff].
Qed.

(** What [strptime] does with a text of the shape of a date. *)
Lemma strptime_date_digits (y1 y2 y3 y4 m1 m2 d1 d2 : ascii) :
  is_digit y1 = true -> is_digit y2 = true -> is_digit y3 = true ->
  is_digit y4 = true -> is_digit m1 = true -> is_digit m2 = true ->
  is_digit d1 = true -> is_digit d2 = true ->
  strptime_date [y1; y2; y3; y4; "-"; m1; m2; "-"; d1; d2]%char
  = if month_day_ok m1 m2 d1 d2
    then new_date (1000 * dval y1 + 100 * dval y2 + 10 * dval y3 + dval y4)%Z
           (10 * dval m1 + dval m2)%Z (10 * dval d1 + dval d2)%Z
    else Raise ValueError.
Proof.
  intros Hy1 Hy2 Hy3 Hy4 Hm1 Hm2 Hd1 Hd2.
  pose proof (tail_check_digits m1 m2 d1 d2 Hm1 Hm2 Hd1 Hd2) as Hck.
  unfold tail_check in Hck. unfold strptime_date, re_match, format_regex.
  change (run (Seq re_Y format_tail) ?s)
    with (flat_map (fun m => map (then_ m) (run format_tail (rest m))) (run re_Y s)).
  assert (HY : run re_Y [y1; y2; y3; y4; "-"; m1; m2; "-"; d1; d2]%char
               = [Mtch [y1; y2; y3; y4] [[y1; y2; y3; y4]] ["-"; m1; m2; "-"; d1; d2]%char]).
  { simpl. rewrite Hy1. simpl. rewrite Hy2. simpl. rewrite Hy3. simpl.
    rewrite Hy4. reflexivity. }
  rewrite HY. cbn [flat_map rest]. rewrite app_nil_r, hd_error_map.
  destruct (hd_error (run format_tail ["-"; m1; m2; "-"; d1; d2]%char)) as [m|].
  - destruct (month_day_ok m1 m2 d1 d2).
    + destruct (mtch_eq_dec m _) as [->|]; [|discriminate].
      cbn [option_map then_ text groups rest app List.length Nat.eqb negb].
      f_equal; unfold int, dval; cbn [fold_left]; ring.
    + cbn [option_map then_ text]. rewrite length_app.
      apply negb_true_iff, Nat.eqb_neq in Hck.
      replace (Nat.eqb _ _) with false; [reflexivity|].
      symmetry. apply Nat.eqb_neq. simpl. lia.
  - apply negb_true_iff in Hck. rewrite Hck. reflexivity.
Qed.

Lemma month_day_ok_iff (m1 m2 d1 d2 : ascii) :
  month_day_ok m1 m2 d1 d2 = true <->
  (1 <= 10 * dval m1 + dval m2 <= 12 /\ 1 <= 10 * dval d1 + dval d2 <= 31)%Z.
Proof. unfold month_day_ok. lia. Qed.

Lemma strptime_calendar (g : str) (y m d : Z) :
  date_shaped g = true -> fields g = Some (y, m, d) -> calendar_date y m d ->
  strptime_date g = Ok (Date y m d).
Proof.
  intros Hg Hf Hc.
  apply date_shaped_inv in Hg
    as (y1 & y2 & y3 & y4 & m1 & m2 & d1 & d2 & -> & Hy1 & Hy2 & Hy3 & Hy4
        & Hm1 & Hm2 & Hd1 & Hd2).
  rewrite strptime_date_digits by assumption.
  unfold fields in Hf.
  assert (Ey : y = (1000 * dval y1 + 100 * dval y2 + 10 * dval y3 + dval y4)%Z)
    by congruence.
  assert (Em : m = (10 * dval m1 + dval m2)%Z) by congruence.
  assert (Ed : d = (10 * dval d1 + dval d2)%Z) by congruence.
  clear Hf. subst y m d.
  assert (Hok : month_day_ok m1 m2 d1 d2 = true).
  { apply month_day_ok_iff. destruct Hc as (_ & n & Hn & Hd).
    apply month_length_inv in Hn as (Hm & ->).
    pose proof (days_in_month_bounds
      (1000 * dval y1 + 100 * dval y2 + 10 * dval y3 + dval y4)
      (10 * dval m1 + dval m2) Hm). lia. }
  rewrite Hok. now apply new_date_calendar.
Qed.

Lemma strptime_not_calendar (g : str) :
  date_shaped g = true -> ~ is_calendar_date g ->
  strptime_date g = Raise ValueError.
Proof.
  intros Hg Hn.
  apply date_shaped_inv in Hg
    as (y1 & y2 & y3 & y4 & m1 & m2 & d1 & d2 & -> & Hy1 & Hy2 & Hy3 & Hy4
        & Hm1 & Hm2 & Hd1 & Hd2).
  rewrite strptime_date_digits by assumption.
  destruct (month_day_ok m1 m2 d1 d2); [|reflexivity].
  apply new_date_not_calendar. intros Hc. apply Hn.
  eexists _, _, _. split; [reflexivity|exact Hc].
Qed.

Lemma strptime_ok_calendar (g : str) (dt : date) :
  date_shaped g = true -> strptime_date g = Ok dt ->
  fields g = Some (year dt, month dt, day dt) /\ valid dt.
Proof.
  intros Hg H.
  apply date_shaped_inv in Hg
    as (y1 & y2 & y3 & y4 & m1 & m2 & d1 & d2 & -> & Hy1 & Hy2 & Hy3 & Hy4
        & Hm1 & Hm2 & Hd1 & Hd2).
  rewrite strptime_date_digits in H by assumption.
  destruct (month_day_ok m1 m2 d1 d2); [|discriminate].
  apply new_date_valid in H as (-> & Hc). split; [reflexivity|exact Hc].
Qed.

(** ** Ordinals of dates *)

Section Ordinals.

Local Open Scope Z_scope.

Lemma days_before_next_year (y : Z) :
  _days_before_year (y + 1) = _days_before_year y + 365 + b2z (_is_leap y).
Proof.
  unfold _days_before_year, _is_leap, b2z.
  replace (y + 1 - 1) with y by lia.
  destruct (Z.eqb_spec (y mod 4) 0) as [H4|H4];
    destruct (Z.eqb_spec (y mod 100) 0) as [H100|H100];
    destruct (Z.eqb_spec (y mod 400) 0) as [H400|H400];
    cbn [andb orb negb]; Z.div_mod_to_equations; lia.
Qed.

Lemma days_before_year_mono (y y' : Z) :
  y < y' -> _days_before_year y + 365 + b2z (_is_leap y) <= _days_before_year y'.
Proof.
  intros H. replace y' with (y + 1 + (y' - y - 1)) by lia.
  assert (Hk : 0 <= y' - y - 1) by lia. revert Hk.
  generalize (y' - y - 1). intros k Hk. pattern k.
  apply natlike_ind; [| |exact Hk].
  - rewrite Z.add_0_r, days_before_next_year. lia.
  - intros x Hx IH. replace (y + 1 + Z.succ x) with ((y + 1 + x) + 1) by lia.
    rewrite days_before_next_year. unfold b2z at 2.
    destruct (_is_leap (y + 1 + x)); lia.
Qed.

Lemma month_cases (m : Z) :
  1 <= m <= 12 ->
  m = 1 \/ m = 2 \/ m = 3 \/ m = 4 \/ m = 5 \/ m = 6 \/ m = 7 \/ m = 8
  \/ m = 9 \/ m = 10 \/ m = 11 \/ m = 12.
Proof. lia. Qed.

Ltac each_month H :=
  destruct H as [->|[->|[->|[->|[->|[->|[->|[->|[->|[->|[->| ->]]]]]]]]]]].

Lemma day_of_year_bounds (l : bool) (m d : Z) :
  1 <= m <= 12 -> 1 <= d <= days_in_month_l l m ->
  1 <= days_before_month_l l m + d <= 365 + b2z l.
Proof.
  intros Hm. apply month_cases in Hm. each_month Hm; destruct l;
    cbv [days_in_month_l days_before_month_l index nth Z.to_nat Pos.to_nat
         Pos.iter_op _DAYS_IN_MONTH _DAYS_BEFORE_MONTH Init.Nat.add b2z
         Z.eqb Pos.eqb Z.ltb Z.compare Pos.compare Pos.compare_cont andb];
    lia.
Qed.

Lemma days_before_month_mono (l : bool) (m m' : Z) :
  1 <= m -> m < m' -> m' <= 12 ->
  days_before_month_l l m + days_in_month_l l m <= days_before_month_l l m'.
Proof.
  intros H1 H2 H3.
  assert (Hm : 1 <= m <= 12) by lia. assert (Hm' : 1 <= m' <= 12) by lia.
  apply month_cases in Hm. apply month_cases in Hm'.
  each_month Hm; each_month Hm'; try lia; destruct l; cbv; discriminate.
Qed.

Lemma ord2md_all :
  forallb (fun k => ord2md_ok false (Z.of_nat k) && ord2md_ok true (Z.of_nat k))%bool
    (seq 0 365) = true.
Proof. vm_compute. reflexivity. Qed.

Lemma ord2md_correct (l : bool) (n : Z) :
  0 <= n <= 364 ->
  1 <= fst (_ord2md l n) <= 12
  /\ 1 <= snd (_ord2md l n) <= days_in_month_l l (fst (_ord2md l n))
  /\ days_before_month_l l (fst (_ord2md l n)) + snd (_ord2md l n) = n + 1.
Proof.
  intros Hn. pose proof ord2md_all as H. rewrite forallb_forall in H.
  specialize (H (Z.to_nat n)).
  rewrite Z2Nat.id in H by lia.
  assert (Hin : In (Z.to_nat n) (seq 0 365)) by (apply in_seq; lia).
  apply H in Hin. clear H. apply andb_prop in Hin as [Hf Ht].
  assert (Hok : ord2md_ok l n = true) by (destruct l; assumption).
  unfold ord2md_ok in Hok. destruct (_ord2md l n) as [m d]. cbn [fst snd]. lia.
Qed.

Lemma days_before_year_cycle (a b c e : Z) :
  0 <= b <= 3 -> 0 <= c <= 24 -> 0 <= e <= 3 ->
  _days_before_year (400 * a + 100 * b + 4 * c + e + 1)
  = 146097 * a + 36524 * b + 1461 * c + 365 * e.
Proof.
  intros Hb Hc He. unfold _days_before_year.
  replace (400 * a + 100 * b + 4 * c + e + 1 - 1)
    with (400 * a + 100 * b + 4 * c + e) by lia.
  Z.div_mod_to_equations. lia.
Qed.

Lemma is_leap_cycle (a b c e : Z) :
  0 <= b <= 3 -> 0 <= c <= 24 -> 0 <= e <= 3 ->
  _is_leap (400 * a + 100 * b + 4 * c + e + 1)
  = ((e =? 3) && (negb (c =? 24) || (b =? 3)))%bool.
Proof.
  intros Hb Hc He. unfold _is_leap.
  destruct (Z.eqb_spec ((400 * a + 100 * b + 4 * c + e + 1) mod 4) 0) as [H4|H4];
    destruct (Z.eqb_spec ((400 * a + 100 * b + 4 * c + e + 1) mod 100) 0) as [H100|H100];
    destruct (Z.eqb_spec ((400 * a + 100 * b + 4 * c + e + 1) mod 400) 0) as [H400|H400];
    destruct (Z.eqb_spec e 3); destruct (Z.eqb_spec c 24); destruct (Z.eqb_spec b 3);
    cbn [andb orb negb]; try reflexivity; exfalso;
    Z.div_mod_to_equations; lia.
Qed.

(** The quotients and remainders [_ord2ymd] takes. *)
Lemma ord_cycles (n : Z) :
  0 <= n ->
  exists a b c e r,
    n / _DI400Y = a /\ (n mod _DI400Y) / _DI100Y = b
    /\ ((n mod _DI400Y) mod _DI100Y) / _DI4Y = c
    /\ (((n mod _DI400Y) mod _DI100Y) mod _DI4Y) / 365 = e
    /\ (((n mod _DI400Y) mod _DI100Y) mod _DI4Y) mod 365 = r
    /\ n = 146097 * a + 36524 * b + 1461 * c + 365 * e + r
    /\ 0 <= a /\ 0 <= b <= 4 /\ 0 <= c <= 24 /\ 0 <= e <= 4 /\ 0 <= r < 365
    /\ 36524 * b + 1461 * c + 365 * e + r < 146097
    /\ 1461 * c + 365 * e + r < 36524
    /\ 365 * e + r < 1461.
Proof.
  intros Hn. unfold _DI400Y, _DI100Y, _DI4Y.
  eexists _, _, _, _, _.
  do 5 (split; [reflexivity|]).
  Z.div_mod_to_equations. lia.
Qed.

Lemma calendar_date_iff (y m d : Z) :
  calendar_date y m d <->
  1 <= y <= 9999 /\ 1 <= m <= 12 /\ 1 <= d <= _days_in_month y m.
Proof.
  unfold calendar_date. split.
  - intros (Hy & n & Hn & Hd). apply month_length_inv in Hn as (Hm & ->). auto.
  - intros (Hy & Hm & Hd). split; [assumption|]. exists (_days_in_month y m).
    split; [now apply month_length_days_in_month|assumption].
Qed.

Lemma ord2ymd_correct (o : Z) :
  1 <= o <= _MAXORDINAL ->
  valid (_ord2ymd o) /\ toordinal (_ord2ymd o) = o.
Proof.
  unfold _MAXORDINAL. intros Ho. unfold valid, toordinal, _ord2ymd. cbv zeta.
  destruct (ord_cycles (o - 1)) as (a & b & c & e & r & E1 & E2 & E3 & E4 & E5
    & En & Ha & Hb & Hc & He & Hr & B1 & B2 & B3); [lia|].
  rewrite E1, E2, E3, E4, E5. clear E1 E2 E3 E4 E5.
  destruct ((e =? 4) || (b =? 4))%bool eqn:Hsp.
  - cbn [year month day]. rewrite calendar_date_iff.
    unfold _ymd2ord, _days_in_month, _days_before_month.
    apply orb_prop in Hsp.
    assert (Hy : exists b' c',
               a * 400 + 1 + (b * 100 + c * 4 + e) - 1
               = 400 * a + 100 * b' + 4 * c' + 3 + 1
               /\ 0 <= b' <= 3 /\ 0 <= c' <= 24
               /\ (negb (c' =? 24) || (b' =? 3))%bool = true
               /\ o = 146097 * a + 36524 * b' + 1461 * c' + 1461).
    { destruct (Z.eqb_spec b 4) as [->|Hb4].
      - exists 3, 24. repeat split; lia.
      - destruct Hsp as [Hsp|Hsp]; [|discriminate]. apply Z.eqb_eq in Hsp. subst e.
        exists b, c. repeat split; lia. }
    destruct Hy as (b' & c' & -> & Hb' & Hc' & Hcb & Eo).
    rewrite days_before_year_cycle, is_leap_cycle by lia. rewrite Hcb.
    cbv [index nth Z.to_nat Pos.to_nat Pos.iter_op _DAYS_IN_MONTH _DAYS_BEFORE_MONTH
         Init.Nat.add b2z Z.eqb Pos.eqb Z.ltb Z.compare Pos.compare Pos.compare_cont andb].
    lia.
  - apply orb_false_elim in Hsp as [He4 Hb4].
    apply Z.eqb_neq in He4. apply Z.eqb_neq in Hb4.
    replace (a * 400 + 1 + (b * 100 + c * 4 + e))
      with (400 * a + 100 * b + 4 * c + e + 1) by lia.
    rewrite <- (is_leap_cycle a b c e) by lia.
    pose proof (ord2md_correct (_is_leap (400 * a + 100 * b + 4 * c + e + 1)) r
                  ltac:(lia)) as (Hm & Hd & Hmd).
    destruct (_ord2md (_is_leap (400 * a + 100 * b + 4 * c + e + 1)) r) as [m d].
    cbn [fst snd] in Hm, Hd, Hmd. cbn [year month day].
    rewrite calendar_date_iff. unfold _ymd2ord.
    change (_days_in_month ?y ?m) with (days_in_month_l (_is_leap y) m).
    change (_days_before_month ?y ?m) with (days_before_month_l (_is_leap y) m).
    rewrite days_before_year_cycle by lia. lia.
Qed.

Lemma day_of_year_valid (d : date) :
  valid d ->
  1 <= _days_before_month (year d) (month d) + day d
    <= 365 + b2z (_is_leap (year d)).
Proof.
  unfold valid. rewrite calendar_date_iff. intros (_ & Hm & Hd).
  exact (day_of_year_bounds (_is_leap (year d)) (month d) (day d) Hm Hd).
Qed.

Lemma date_lt_toordinal (a b : date) :
  valid a -> valid b -> date_lt a b = true -> toordinal a < toordinal b.
Proof.
  intros Ha Hb H. pose proof (day_of_year_valid a Ha) as Da.
  pose proof (day_of_year_valid b Hb) as Db.
  unfold valid in Ha, Hb. rewrite calendar_date_iff in Ha, Hb.
  destruct Ha as (_ & Hma & Hda). destruct Hb as (_ & Hmb & Hdb).
  unfold toordinal, _ymd2ord. unfold date_lt in H.
  destruct (Z.ltb_spec (year a) (year b)) as [Hy|Hy].
  - pose proof (days_before_year_mono _ _ Hy). lia.
  - cbn [orb] in H. apply andb_prop in H as [Ey H]. apply Z.eqb_eq in Ey.
    rewrite Ey in *. clear Hy.
    change (_days_in_month ?y ?m) with (days_in_month_l (_is_leap y) m) in *.
    change (_days_before_month ?y ?m) with (days_before_month_l (_is_leap y) m) in *.
    destruct (Z.ltb_spec (month a) (month b)) as [Hm|Hm].
    + pose proof (days_before_month_mono (_is_leap (year b)) _ _
                    (proj1 Hma) Hm (proj2 Hmb)). lia.
    + cbn [orb] in H. apply andb_prop in H as [Em H]. apply Z.eqb_eq in Em.
      apply Z.ltb_lt in H. rewrite Em. lia.
Qed.

Lemma date_lt_total (a b : date) :
  date_lt a b = true \/ a = b \/ date_lt b a = true.
Proof.
  destruct a as [ya ma da], b as [yb mb db]. unfold date_lt. cbn [year month day].
  destruct (Z.lt_trichotomy ya yb) as [H|[->|H]];
    [left; apply orb_true_iff; left; now apply Z.ltb_lt| |
     right; right; apply orb_true_iff; left; now apply Z.ltb_lt].
  destruct (Z.lt_trichotomy ma mb) as [H|[->|H]];
    [left|idtac|right; right].
  - rewrite Z.eqb_refl. replace (ma <? mb) with true by lia.
    now rewrite orb_true_r.
  - destruct (Z.lt_trichotomy da db) as [H|[->|H]].
    + left. rewrite !Z.eqb_refl. replace (da <? db) with true by lia.
      now rewrite !orb_true_r.
    + right. left. reflexivity.
    + right. right. rewrite !Z.eqb_refl. replace (db <? da) with true by lia.
      now rewrite !orb_true_r.
  - rewrite Z.eqb_refl. replace (mb <? ma) with true by lia.
    now rewrite orb_true_r.
Qed.

(** The order of dates is the order of their ordinals. *)
Lemma date_lt_iff (a b : date) :
  valid a -> valid b -> date_lt a b = (toordinal a <? toordinal b).
Proof.
  intros Ha Hb. destruct (Z.ltb_spec (toordinal a) (toordinal b)) as [H|H].
  - destruct (date_lt_total a b) as [Hlt|[->|Hgt]]; [assumption|lia|].
    pose proof (date_lt_toordinal b a Hb Ha Hgt). lia.
  - destruct (date_lt a b) eqn:Hlt; [|reflexivity].
    pose proof (date_lt_toordinal a b Ha Hb Hlt). lia.
Qed.

Lemma toordinal_range (d : date) : valid d -> 1 <= toordinal d <= _MAXORDINAL.
Proof.
  intros Hd. pose proof (day_of_year_valid d Hd) as Dd.
  unfold valid in Hd. rewrite calendar_date_iff in Hd. destruct Hd as (Hy & _ & _).
  unfold toordinal, _ymd2ord, _MAXORDINAL. split.
  - destruct (Z.eq_dec (year d) 1) as [E|Hne].
    + replace (_days_before_year (year d)) with 0 by (now rewrite E). lia.
    + pose proof (days_before_year_mono 1 (year d) ltac:(lia)) as H.
      change (_days_before_year 1) with 0 in H.
      destruct (_is_leap 1); cbn [b2z] in H; lia.
  - pose proof (days_before_year_mono (year d) 10000 ltac:(lia)) as H.
    change (_days_before_year 10000) with 3652059 in H. lia.
Qed.

Lemma toordinal_inj (a b : date) :
  valid a -> valid b -> toordinal a = toordinal b -> a = b.
Proof.
  intros Ha Hb E. destruct (date_lt_total a b) as [H|[H|H]]; [|assumption|].
  - pose proof (date_lt_toordinal a b Ha Hb H). lia.
  - pose proof (date_lt_toordinal b a Hb Ha H). lia.
Qed.

Lemma fromordinal_toordinal (d : date) : valid d -> fromordinal (toordinal d) = d.
Proof.
  intros Hd. pose proof (toordinal_range d Hd) as Hr.
  destruct (ord2ymd_correct (toordinal d) Hr) as (Hv & E).
  now apply toordinal_inj.
Qed.

(** Subtracting [days] days from a date, when the result is a date. *)
Lemma date_sub_ok (d : date) (days : Z) :
  valid d -> 1 <= toordinal d - days <= _MAXORDINAL ->
  exists r, date_sub d days = Ok r /\ valid r /\ toordinal r = toordinal d - days.
Proof.
  intros Hd Hr. pose proof (toordinal_range d Hd) as Ho.
  unfold _MAXORDINAL in *.
  unfold date_sub, timedelta.
  replace (999999999 <? Z.abs (- days)) with false by lia. cbn [bind].
  unfold date_add. replace (toordinal d + - days) with (toordinal d - days) by lia.
  replace ((0 <? toordinal d - days) && (toordinal d - days <=? _MAXORDINAL))%bool
    with true by (unfold _MAXORDINAL; lia).
  exists (fromordinal (toordinal d - days)). split; [reflexivity|].
  now apply ord2ymd_correct.
Qed.

Lemma date_sub_overflow (d : date) (days : Z) :
  valid d -> toordinal d <= days -> date_sub d days = Raise OverflowError.
Proof.
  intros Hd Hr. unfold date_sub, timedelta.
  destruct (999999999 <? Z.abs (- days)); [reflexivity|]. cbn [bind].
  unfold date_add.
  replace (0 <? toordinal d + - days) with false by lia. reflexivity.
Qed.

Lemma days_before_next_month (l : bool) (m : Z) :
  1 <= m <= 11 ->
  days_before_month_l l (m + 1) = days_before_month_l l m + days_in_month_l l m.
Proof.
  intros Hm.
  assert (H : m = 1 \/ m = 2 \/ m = 3 \/ m = 4 \/ m = 5 \/ m = 6 \/ m = 7
              \/ m = 8 \/ m = 9 \/ m = 10 \/ m = 11) by lia.
  destruct H as [->|[->|[->|[->|[->|[->|[->|[->|[->|[->| ->]]]]]]]]]];
    destruct l; reflexivity.
Qed.

(** The ordinal counts days: the day after a date has the next ordinal,
    and is a date, up to the last day of year 9999. *)
Lemma toordinal_tomorrow (d : date) :
  valid d -> toordinal d < _MAXORDINAL ->
  valid (tomorrow d) /\ toordinal (tomorrow d) = toordinal d + 1.
Proof.
  intros Hd Hmax. pose proof (day_of_year_valid d Hd) as Dd.
  unfold valid in Hd. rewrite calendar_date_iff in Hd.
  destruct Hd as (Hy & Hm & Hday).
  unfold toordinal, _ymd2ord, _MAXORDINAL in Hmax.
  change (_days_in_month ?y ?m) with (days_in_month_l (_is_leap y) m) in *.
  change (_days_before_month ?y ?m) with (days_before_month_l (_is_leap y) m) in *.
  unfold tomorrow.
  change (_days_in_month ?y ?m) with (days_in_month_l (_is_leap y) m).
  destruct (Z.ltb_spec (day d) (days_in_month_l (_is_leap (year d)) (month d)))
    as [Hlt|Hge]; [|destruct (Z.ltb_spec (month d) 12) as [Hm12|Hm12]];
    unfold valid, toordinal, _ymd2ord; cbn [year month day];
    rewrite calendar_date_iff;
    change (_days_in_month ?y ?m) with (days_in_month_l (_is_leap y) m);
    change (_days_before_month ?y ?m) with (days_before_month_l (_is_leap y) m).
  - lia.
  - rewrite days_before_next_month by lia.
    assert (Hm' : 1 <= month d + 1 <= 12) by lia.
    pose proof (days_in_month_bounds (year d) (month d + 1) Hm') as Hb.
    change (_days_in_month ?y ?m) with (days_in_month_l (_is_leap y) m) in Hb.
    lia.
  - assert (E12 : month d = 12) by lia. rewrite E12 in *.
    rewrite days_before_next_year.
    assert (Hy' : year d < 9999).
    { destruct (Z.eq_dec (year d) 9999) as [E|]; [|lia]. exfalso.
      assert (Hdby : _days_before_year 9999 = 3651694) by reflexivity.
      assert (Hl : _is_leap 9999 = false) by reflexivity.
      rewrite E, Hdby, Hl in Hmax. rewrite E, Hl in Hge.
      change (days_before_month_l false 12) with 334 in Hmax.
      change (days_in_month_l false 12) with 31 in Hge. lia. }
    revert Hday Hge Dd.
    destruct (_is_leap (year d)), (_is_leap (year d + 1));
      cbv [days_in_month_l days_before_month_l index nth Z.to_nat Pos.to_nat
           Pos.iter_op _DAYS_IN_MONTH _DAYS_BEFORE_MONTH Init.Nat.add b2z Z.eqb
           Pos.eqb Z.ltb Z.compare Pos.compare Pos.compare_cont andb]; lia.
Qed.

End Ordinals.

(** ** Workflow names *)

Lemma ascii_word_is_word (w : str) :
  forallb is_ascii_word w = true -> forallb is_word w = true.
Proof.
  rewrite !forallb_forall. intros H c Hc. unfold is_word. now rewrite (H c Hc).
Qed.

(** C5, as amended.  The name returned is the token of the first
    [dag_id=<token>/] of the path, a token being a non-empty run of word
    characters: for a path that has [dag_id=foo/] with [foo] in
    [[A-Za-z0-9_]+] and no such text starting before it, [foo] is
    returned; a path with no such text at all gives [None], and no
    exception. *)
Theorem extract_dag_name_first_token :
  (forall pre foo post path,
      path = pre ++ lit "dag_id=" ++ foo ++ "/"%char :: post ->
      foo <> [] -> forallb is_ascii_word foo = true ->
      first_dag_id pre path ->
      _extract_dag_name_from_path path = Some foo)
  /\ (forall path,
        (forall pre w post, ~ dag_id_at pre w post path) ->
        _extract_dag_name_from_path path = None).
Proof.
  split.
  - intros pre foo post path E Hne Hw Hfirst. apply dag_name_Some.
    exists pre, post. split; [|assumption].
    repeat split; [assumption|assumption|now apply ascii_word_is_word].
  - intros path H. now apply dag_name_None.
Qed.

Lemma extract_dag_name_first_token_witness :
  _extract_dag_name_from_path (lit "a/dag_id=etl_job/run_id=m__2024-01-01/f.log")
    = Some (lit "etl_job")
  /\ _extract_dag_name_from_path (lit "a/f.log") = None.
Proof.
  split.
  - apply (proj1 extract_dag_name_first_token
             (lit "a/") (lit "etl_job") (lit "run_id=m__2024-01-01/f.log")).
    + reflexivity.
    + discriminate.
    + reflexivity.
    + intros pre' w' post' (E & _).
      destruct pre' as [|c1 [|c2 pre']]; [discriminate E|discriminate E|simpl; lia].
  - apply (proj2 extract_dag_name_first_token). intros pre w post (E & Hw & _).
    apply (f_equal (@List.length ascii)) in E.
    rewrite !length_app in E. simpl in E.
    destruct w; [congruence|simpl in E; lia].
Defined.

(** C5 as stated fails twice.  A path may hold [dag_id=foo/] and yet give
    another name, the one of an earlier [dag_id=a/]; and a path with no
    [dag_id=<[A-Za-z0-9_]+>/] may give a name, since [\w] also takes the
    letters beyond ASCII (here the code point 233, e with acute). *)
Lemma extract_dag_name_not_every_occurrence :
  (lit "dag_id=a/dag_id=foo/" = lit "dag_id=a/" ++ lit "dag_id=" ++ lit "foo" ++ "/"%char :: []
   /\ forallb is_ascii_word (lit "foo") = true
   /\ _extract_dag_name_from_path (lit "dag_id=a/dag_id=foo/") = Some (lit "a")
   /\ _extract_dag_name_from_path (lit "dag_id=a/dag_id=foo/") <> Some (lit "foo"))
  /\ ((forall pre foo post, foo <> [] -> forallb is_ascii_word foo = true ->
         lit "dag_id=" ++ ["233"%char; "/"%char]
           <> pre ++ lit "dag_id=" ++ foo ++ "/"%char :: post)
      /\ _extract_dag_name_from_path (lit "dag_id=" ++ ["233"%char; "/"%char])
           = Some ["233"%char]).
Proof.
  split; [repeat split; discriminate|]. split; [|reflexivity].
  intros pre foo post Hne Hw E.
  destruct pre as [|c pre].
  - rewrite app_nil_l in E. apply app_inv_head in E.
    destruct foo as [|a foo]; [congruence|].
    simpl in E. injection E as <- E. discriminate Hw.
  - apply (f_equal (@List.length ascii)) in E.
    rewrite !length_app in E. simpl in E.
    destruct foo; [congruence|simpl in E; lia].
Qed.

(** C10, as amended.  The separator is required: where no [dag_id=<name>]
    of a path has a ['/'] right after its name, the result is [None]; so
    it is for a path that ends in [dag_id=<name>] when what comes before
    gives no name. *)
Theorem dag_name_needs_separator :
  (forall path,
      (forall pre name post, path = pre ++ lit "dag_id=" ++ name ++ post ->
         name <> [] -> forallb is_word name = true ->
         forall post', post <> "/"%char :: post') ->
      _extract_dag_name_from_path path = None)
  /\ (forall pre name,
        forallb is_word name = true ->
        _extract_dag_name_from_path pre = None ->
        _extract_dag_name_from_path (pre ++ lit "dag_id=" ++ name) = None).
Proof.
  split.
  - intros path H. apply dag_name_None. intros pre w post (E & Hw & Hp).
    exact (H pre w ("/"%char :: post) E Hw Hp post eq_refl).
  - intros pre name Hname Hpre. apply dag_name_None.
    intros pre' w post (E & Hw & Hp).
    rewrite dag_name_None in Hpre.
    assert (E' : pre ++ (lit "dag_id=" ++ name)
                 = (pre' ++ lit "dag_id=" ++ w) ++ "/"%char :: post).
    { rewrite E, <- !app_assoc. reflexivity. }
    apply app_eq_app in E' as [x [[E1 E2]|[E1 E2]]].
    + destruct x as [|c x].
      * discriminate E2.
      * injection E2 as <- E2. apply (Hpre pre' w x).
        repeat split; [|assumption|assumption].
        rewrite E1, <- !app_assoc. reflexivity.
    + assert (Hin : In "/"%char (lit "dag_id=" ++ name)).
      { rewrite E2. apply in_or_app. right. now left. }
      apply in_app_or in Hin as [Hin|Hin].
      * simpl in Hin. repeat (destruct Hin as [Hin|Hin]; [discriminate Hin|]).
        exact Hin.
      * rewrite forallb_forall in Hname. specialize (Hname _ Hin). discriminate.
Qed.

Lemma dag_name_needs_separator_witness :
  _extract_dag_name_from_path (lit "logs/dag_id=foo.log") = None
  /\ _extract_dag_name_from_path (lit "logs/" ++ lit "dag_id=" ++ lit "foo") = None.
Proof.
  split.
  - apply (proj1 dag_name_needs_separator). intros pre name post E Hne Hw post' ->.
    apply (proj1 (dag_name_None (lit "logs/dag_id=foo.log")) eq_refl pre name post').
    repeat split; assumption.
  - apply (proj2 dag_name_needs_separator); reflexivity.
Defined.

(** C10 as stated fails: this path ends in [dag_id=foo], with no ['/']
    after it, and the name of the earlier [dag_id=a/] is returned. *)
Lemma dag_name_without_separator_not_absent :
  lit "dag_id=a/dag_id=foo" = lit "dag_id=a/" ++ lit "dag_id=" ++ lit "foo"
  /\ forallb is_ascii_word (lit "foo") = true
  /\ _extract_dag_name_from_path (lit "dag_id=a/dag_id=foo") = Some (lit "a")
  /\ _extract_dag_name_from_path (lit "dag_id=a/dag_id=foo") <> None.
Proof. repeat split; discriminate. Qed.

(** ** The lister *)

Lemma truthy_dag_name (path : str) :
  truthy (_extract_dag_name_from_path path)
  = match _extract_dag_name_from_path path with Some _ => true | None => false end.
Proof.
  pose proof (dag_name_nonempty path) as H.
  destruct (_extract_dag_name_from_path path) as [[|c n]|]; simpl;
    [now elim H|reflexivity|reflexivity].
Qed.

Lemma py_in_spec (n : str) (names : list str) :
  py_in (Some n) names = if in_dec (list_eq_dec ascii_dec) n names then true else false.
Proof.
  simpl. destruct (in_dec (list_eq_dec ascii_dec) n names) as [Hin|Hout].
  - apply existsb_exists. exists n. split; [assumption|].
    destruct (list_eq_dec ascii_dec n n); congruence.
  - match goal with |- ?lhs = false => destruct lhs eqn:E; [|reflexivity] end.
    apply existsb_exists in E as (m & Hm & E).
    destruct (list_eq_dec ascii_dec n m); [subst; contradiction|discriminate].
Qed.

(** C6.  Of a listing, [list_log_files] yields, in the order of the
    listing, the objects whose path has a workflow name when [dag_names]
    is omitted or empty, and the objects whose workflow name is one of
    [dag_names] otherwise, which leaves out those without a name; a
    failure of the listing is passed on. *)
Theorem list_log_files_yields_wanted (St : Type) (self : AfLogsCleaner St)
    (dag_names : option (list str)) (st : St) :
  list_log_files self dag_names st
  = (filter (wanted dag_names)
       (fst (list_objects (client self) (dag_logs_bucket self) true st)),
     snd (list_objects (client self) (dag_logs_bucket self) true st)).
Proof.
  unfold list_log_files.
  destruct (list_objects (client self) (dag_logs_bucket self) true st) as [objects e].
  simpl fst. simpl snd.
  destruct dag_names as [[|n0 names]|]; simpl given; cbv iota; f_equal;
    apply filter_ext; intros obj; unfold wanted;
    try (rewrite truthy_dag_name;
         now destruct (_extract_dag_name_from_path (object_name obj))).
  destruct (_extract_dag_name_from_path (object_name obj)) as [n|]; [|reflexivity].
  apply py_in_spec.
Qed.

(** ** Execution dates *)

Lemma extract_dagrun_dt_at (path pre x g post : str) :
  run_id_at pre x g post path -> first_run_id pre path ->
  _extract_dagrun_dt_from_path path
  = (dag_run_dt <- strptime_date g ;; Ok (Some dag_run_dt)).
Proof.
  intros Hat Hfirst. unfold _extract_dagrun_dt_from_path.
  assert (E : search regexp_extract_dagrun_dt path
              = Some (Mtch (lit "run_id=" ++ x ++ lit "__" ++ g) [g] post)).
  { apply dagrun_search_Some. exists pre, x, g, post. auto. }
  rewrite E. reflexivity.
Qed.

Lemma extract_dagrun_dt_absent (path : str) :
  _extract_dagrun_dt_from_path path = Ok None <->
  forall pre x g post, ~ run_id_at pre x g post path.
Proof.
  rewrite <- dagrun_search_None. unfold _extract_dagrun_dt_from_path. split.
  - destruct (search regexp_extract_dagrun_dt path) as [m|] eqn:E; [|reflexivity].
    apply dagrun_search_Some in E as (pre & x & g & post & _ & _ & ->).
    cbn. destruct (strptime_date g); discriminate.
  - intros ->. reflexivity.
Qed.

(** The pattern does not match at a [run_id=] whose text, free of digits
    up to a digit [c], does not end in a double underscore there. *)
Lemma dagrun_no_match_at_digit (x : str) (c : ascii) (t : str) :
  forallb is_nondigit x = true -> is_digit c = true ->
  (forall x0, x <> x0 ++ lit "__") ->
  re_match regexp_extract_dagrun_dt (lit "run_id=" ++ x ++ c :: t) = None.
Proof.
  intros Hx Hc Hend. unfold re_match.
  assert (E : run regexp_extract_dagrun_dt (lit "run_id=" ++ x ++ c :: t) = []);
    [|now rewrite E].
  apply (run_nil_shape _ _ in_run_dagrun_dt).
  intros m (x' & g & t' & E & _ & Hx' & Hg & _).
  apply app_inv_head in E.
  apply date_shaped_inv in Hg
    as (y1 & y2 & y3 & y4 & m1 & m2 & d1 & d2 & -> & Hy1 & _).
  assert (E' : x ++ c :: t
               = (x' ++ lit "__")
                 ++ y1 :: ([y2; y3; y4; "-"; m1; m2; "-"; d1; d2]%char ++ t')).
  { rewrite <- !app_assoc. exact E. }
  apply span_unique with (p := is_nondigit) in E' as (Ex & _ & _).
  - exact (Hend x' Ex).
  - exact Hx.
  - rewrite forallb_app, Hx'. reflexivity.
  - unfold is_nondigit. now rewrite Hc.
  - unfold is_nondigit. now rewrite Hy1.
Qed.

Lemma no_match_before_sound (r : regex) (n : nat) (s : str) :
  no_match_before r n s = true ->
  forall pre t, s = pre ++ t -> List.length pre < n -> run r t = [].
Proof.
  revert s. induction n as [|n IH]; intros s H pre t E Hlt; [lia|].
  simpl in H. destruct (run r s) as [|m l] eqn:Hr; [|discriminate].
  destruct pre as [|c pre]; simpl in E.
  - now subst t.
  - subst s. apply (IH _ H pre t eq_refl). simpl in Hlt. lia.
Qed.

Lemma first_run_id_check (pre path : str) :
  no_match_before regexp_extract_dagrun_dt (List.length pre) path = true ->
  first_run_id pre path.
Proof.
  intros H pre' x' g' post' (E & Hx & Hp & Hg).
  destruct (le_lt_dec (List.length pre) (List.length pre')) as [|Hlt]; [assumption|].
  exfalso. pose proof (no_match_before_sound _ _ _ H pre' _ E Hlt) as Hnil.
  rewrite (run_nil_shape _ _ in_run_dagrun_dt) in Hnil.
  apply (Hnil (Mtch (lit "run_id=" ++ x' ++ lit "__" ++ g') [g'] post')).
  exists x', g', post'. auto.
Qed.

(** C4, as amended.  The date returned is the one of the first
    [run_id=<non-digits>__<dddd-dd-dd>] of the path: a path that has
    [run_id=<x>__2024-01-15], [x] a non-empty text without digits, and no
    such text starting before it, gives the date 2024-01-15.  A path with
    no such text gives [None].  At a [run_id=] followed by a text that
    comes to a digit with no double underscore right before it the
    pattern does not match, and the path [run_id=abc123__2024-01-15]
    gives [None]. *)
Theorem extract_dagrun_dt_first_run_id :
  (forall pre x post path,
      path = pre ++ lit "run_id=" ++ x ++ lit "__2024-01-15" ++ post ->
      x <> [] -> forallb is_nondigit x = true ->
      first_run_id pre path ->
      _extract_dagrun_dt_from_path path = Ok (Some (Date 2024 1 15)))
  /\ (forall path,
        (forall pre x g post, ~ run_id_at pre x g post path) ->
        _extract_dagrun_dt_from_path path = Ok None)
  /\ (forall x c t,
        forallb is_nondigit x = true -> is_digit c = true ->
        (forall x0, x <> x0 ++ lit "__") ->
        re_match regexp_extract_dagrun_dt (lit "run_id=" ++ x ++ c :: t) = None)
  /\ _extract_dagrun_dt_from_path (lit "run_id=abc123__2024-01-15") = Ok None.
Proof.
  split; [|split; [|split]].
  - intros pre x post path E Hne Hx Hfirst.
    rewrite (extract_dagrun_dt_at path pre x (lit "2024-01-15") post).
    + reflexivity.
    + repeat split; assumption.
    + assumption.
  - intros path H. now apply extract_dagrun_dt_absent.
  - exact dagrun_no_match_at_digit.
  - reflexivity.
Qed.

Lemma extract_dagrun_dt_first_run_id_witness :
  _extract_dagrun_dt_from_path (lit "a/dag_id=x/run_id=xyz__2024-01-15T00/f.log")
    = Ok (Some (Date 2024 1 15))
  /\ _extract_dagrun_dt_from_path (lit "a/dag_id=x/f.log") = Ok None
  /\ re_match regexp_extract_dagrun_dt (lit "run_id=" ++ lit "abc" ++ "1"%char :: lit "23__2024-01-15")
     = None.
Proof.
  split; [|split].
  - apply (proj1 extract_dagrun_dt_first_run_id
             (lit "a/dag_id=x/") (lit "xyz") (lit "T00/f.log")).
    + reflexivity.
    + discriminate.
    + reflexivity.
    + apply first_run_id_check. reflexivity.
  - apply (proj1 (proj2 extract_dagrun_dt_first_run_id)).
    apply (proj1 (extract_dagrun_dt_absent (lit "a/dag_id=x/f.log")) eq_refl).
  - apply (proj1 (proj2 (proj2 extract_dagrun_dt_first_run_id))).
    + reflexivity.
    + reflexivity.
    + intros x0 E. apply (f_equal (@rev ascii)) in E. rewrite rev_app_distr in E.
      discriminate E.
Defined.

(** C4 as stated fails: this path holds [run_id=xyz__2024-01-15], and the
    date returned is that of the [run_id=a__2023-05-05] before it. *)
Lemma extract_dagrun_dt_not_every_occurrence :
  lit "run_id=a__2023-05-05/run_id=xyz__2024-01-15"
    = lit "run_id=a__2023-05-05/" ++ lit "run_id=xyz__2024-01-15"
  /\ _extract_dagrun_dt_from_path (lit "run_id=a__2023-05-05/run_id=xyz__2024-01-15")
     = Ok (Some (Date 2023 5 5))
  /\ _extract_dagrun_dt_from_path (lit "run_id=a__2023-05-05/run_id=xyz__2024-01-15")
     <> Ok (Some (Date 2024 1 15)).
Proof. repeat split; discriminate. Qed.

(** C7.  When the pattern is found in the path and the text of its group,
    of the shape [YYYY-MM-DD], does not write a date of the calendar,
    the call raises [ValueError], the error of [strptime]; it does not
    return [None]. *)
Theorem malformed_date_raises (path : str) (match_obj : mtch) (g : str) :
  search regexp_extract_dagrun_dt path = Some match_obj ->
  group match_obj 1 = Some g ->
  ~ is_calendar_date g ->
  _extract_dagrun_dt_from_path path = Raise ValueError.
Proof.
  intros Hs Hg Hn. unfold _extract_dagrun_dt_from_path. rewrite Hs, Hg.
  apply dagrun_search_Some in Hs as (pre & x & g0 & post & (_ & _ & _ & Hshape) & _ & ->).
  cbn in Hg. injection Hg as ->.
  now rewrite (strptime_not_calendar g Hshape Hn).
Qed.

Lemma malformed_date_raises_witness :
  _extract_dagrun_dt_from_path (lit "a/dag_id=x/run_id=m__2024-02-30/f.log")
  = Raise ValueError.
Proof.
  apply (malformed_date_raises (lit "a/dag_id=x/run_id=m__2024-02-30/f.log")
           (Mtch (lit "run_id=m__2024-02-30") [lit "2024-02-30"] (lit "/f.log"))
           (lit "2024-02-30")).
  - reflexivity.
  - reflexivity.
  - intros (y & m & d & Hf & _ & n & Hn & Hd).
    apply month_length_inv in Hn as (_ & ->).
    cbv [fields lit list_ascii_of_string] in Hf.
    assert (Ey : y = 2024%Z) by (cbv in Hf; congruence).
    assert (Em : m = 2%Z) by (cbv in Hf; congruence).
    assert (Ed : d = 30%Z) by (cbv in Hf; congruence).
    subst. vm_compute in Hd. destruct Hd as [_ Hd]. now apply Hd.
Defined.

(** ** The expiry selector *)

Lemma extract_dagrun_dt_valid (path : str) (d : date) :
  _extract_dagrun_dt_from_path path = Ok (Some d) -> valid d.
Proof.
  unfold _extract_dagrun_dt_from_path.
  destruct (search regexp_extract_dagrun_dt path) as [m|] eqn:E; [|discriminate].
  apply dagrun_search_Some in E as (pre & x & g & post & (_ & _ & _ & Hg) & _ & ->).
  cbn. destruct (strptime_date g) as [dt|] eqn:Hs; [|discriminate].
  cbn. intros [= <-]. now apply (strptime_ok_calendar g dt Hg Hs).
Qed.

Lemma choose_loop_parseable (deadline : date) (log_files expired_lst : list Object) :
  Forall parseable log_files ->
  choose_loop deadline log_files expired_lst
  = Ok (expired_lst ++ filter (before_deadline deadline) log_files).
Proof.
  intros H. revert expired_lst. induction H as [|f l (d & Hf) _ IH]; intros acc.
  - simpl. now rewrite app_nil_r.
  - cbn [choose_loop filter]. unfold before_deadline at 1, execution_date.
    rewrite Hf. cbn [bind lt_deadline]. rewrite IH.
    destruct (date_lt d deadline); [now rewrite <- app_assoc|reflexivity].
Qed.

Lemma filter_filter (A : Type) (p : A -> bool) (l : list A) :
  filter p (filter p l) = filter p l.
Proof.
  induction l as [|a l IH]; [reflexivity|]. simpl.
  destruct (p a) eqn:Ha; [|assumption]. simpl. now rewrite Ha, IH.
Qed.

Lemma Forall_filter (A : Type) (P : A -> Prop) (p : A -> bool) (l : list A) :
  Forall P l -> Forall P (filter p l).
Proof.
  rewrite !Forall_forall. intros H a Ha. apply filter_In in Ha as [Ha _]. auto.
Qed.

(** The item whose path has no date: the comparison of [None] with the
    deadline raises [TypeError], whatever comes after it. *)
Lemma choose_loop_absent (deadline : date) (before : list Object) (f : Object)
    (after expired_lst : list Object) :
  Forall parseable before ->
  _extract_dagrun_dt_from_path (object_name f) = Ok None ->
  choose_loop deadline (before ++ f :: after) expired_lst = Raise TypeError.
Proof.
  intros H Hf. revert expired_lst. induction H as [|f0 l (d & Hd) _ IH]; intros acc.
  - cbn [app choose_loop]. rewrite Hf. reflexivity.
  - cbn [app choose_loop]. rewrite Hd. cbn [bind lt_deadline]. apply IH.
Qed.

(** C1: the failing input.  The path of the one item has no [run_id=]
    at all; the call compares [None] with the deadline and ends with
    [TypeError]: the item is not skipped, and the error is not the one
    of a malformed date. *)
Theorem choose_expired_logs_absent_date_type_error :
  _extract_dagrun_dt_from_path (lit "a/dag_id=x/f.log") = Ok None
  /\ choose_expired_logs (Date 2024 6 10) [log "a/dag_id=x/f.log"] 0 = Raise TypeError.
Proof. split; reflexivity. Qed.

(** C2, as amended.  For a current date, a sequence of descriptors whose
    paths all have a date that parses, and [ttl_days] from 0 up to, not
    including, the ordinal of the current date (so that the deadline is a
    date), the call returns the items of the input, in the order of the
    input, whose execution date is strictly less than the current date
    minus [ttl_days] days.  With [ttl_days = 0] an item dated as the
    current date is left out and an item dated the day before is taken. *)
Theorem choose_expired_logs_selects (now_dt : date) (log_files : list Object)
    (ttl_days : Z) :
  valid now_dt ->
  Forall parseable log_files ->
  (0 <= ttl_days < toordinal now_dt)%Z ->
  choose_expired_logs now_dt log_files ttl_days
    = Ok (filter (expired now_dt ttl_days) log_files)
  /\ (ttl_days = 0%Z ->
      forall f d, In f log_files -> execution_date f = Some d ->
        (d = now_dt -> ~ In f (filter (expired now_dt ttl_days) log_files))
        /\ (toordinal d = (toordinal now_dt - 1)%Z ->
            In f (filter (expired now_dt ttl_days) log_files))).
Proof.
  intros Hnow Hall Httl. split.
  - unfold choose_expired_logs, timedelta.
    pose proof (toordinal_range now_dt Hnow) as Hr. unfold _MAXORDINAL in Hr.
    replace (999999999 <? Z.abs ttl_days)%Z with false by lia. cbn [bind].
    destruct (date_sub_ok now_dt ttl_days Hnow) as (deadline & -> & Hv & Ho);
      [unfold _MAXORDINAL; lia|].
    cbn [bind]. rewrite (choose_loop_parseable deadline log_files [] Hall).
    cbn [app]. f_equal. apply filter_ext_in. intros f Hf.
    unfold before_deadline, expired, execution_date.
    rewrite Forall_forall in Hall. destruct (Hall f Hf) as (d & Hd). rewrite Hd.
    rewrite (date_lt_iff d deadline (extract_dagrun_dt_valid _ _ Hd) Hv).
    now rewrite Ho.
  - intros -> f d Hin Hd. split.
    + intros -> H. apply filter_In in H as [_ H]. unfold expired in H.
      rewrite Hd in H. lia.
    + intros Ho. apply filter_In. split; [assumption|]. unfold expired.
      rewrite Hd. lia.
Qed.

Lemma choose_expired_logs_selects_witness :
  choose_expired_logs (Date 2024 6 10)
    [log "a/dag_id=x/run_id=m__2024-01-01/f.log";
     log "a/dag_id=y/run_id=n__2024-06-01/f.log"] 100
  = Ok [log "a/dag_id=x/run_id=m__2024-01-01/f.log"].
Proof.
  assert (Hv : valid (Date 2024 6 10)).
  { apply calendar_date_iff. cbv. repeat split; discriminate. }
  assert (Hp : Forall parseable
                 [log "a/dag_id=x/run_id=m__2024-01-01/f.log";
                  log "a/dag_id=y/run_id=n__2024-06-01/f.log"]).
  { repeat constructor; eexists; reflexivity. }
  assert (Ht : (0 <= 100 < toordinal (Date 2024 6 10))%Z).
  { cbv. split; [discriminate|reflexivity]. }
  exact (proj1 (choose_expired_logs_selects (Date 2024 6 10) _ 100 Hv Hp Ht)).
Defined.

(** C2 as stated fails for large [ttl_days]: the deadline would fall
    before the first date there is, and the subtraction raises
    [OverflowError]. *)
Lemma choose_expired_logs_ttl_overflow :
  parseable (log "a/dag_id=x/run_id=m__2024-01-01/f.log")
  /\ (0 <= 800000)%Z
  /\ choose_expired_logs (Date 2024 6 10)
       [log "a/dag_id=x/run_id=m__2024-01-01/f.log"] 800000
     = Raise OverflowError.
Proof.
  split; [eexists; reflexivity|]. split; [discriminate|reflexivity].
Qed.

(** C8.  With the same current date and the same [ttl_days], selecting
    from what a selection returned returns it again: the two calls in a
    row give what the first one gives. *)
Theorem choose_expired_logs_idempotent (now_dt : date) (log_files : list Object)
    (ttl_days : Z) :
  Forall parseable log_files ->
  (expired_lst <- choose_expired_logs now_dt log_files ttl_days ;;
   choose_expired_logs now_dt expired_lst ttl_days)
  = choose_expired_logs now_dt log_files ttl_days.
Proof.
  intros Hall. unfold choose_expired_logs.
  destruct (timedelta ttl_days) as [delta|e]; [|reflexivity]. cbn [bind].
  destruct (date_sub now_dt delta) as [deadline|e]; [|reflexivity]. cbn [bind].
  rewrite (choose_loop_parseable deadline log_files [] Hall). cbn [app bind].
  rewrite choose_loop_parseable by now apply Forall_filter.
  cbn [app]. now rewrite filter_filter.
Qed.

Lemma choose_expired_logs_idempotent_witness :
  (expired_lst <- choose_expired_logs (Date 2024 6 10)
      [log "a/dag_id=x/run_id=m__2024-01-01/f.log";
       log "a/dag_id=y/run_id=n__2024-06-01/f.log"] 100 ;;
   choose_expired_logs (Date 2024 6 10) expired_lst 100)
  = Ok [log "a/dag_id=x/run_id=m__2024-01-01/f.log"].
Proof.
  rewrite (choose_expired_logs_idempotent (Date 2024 6 10)
             [log "a/dag_id=x/run_id=m__2024-01-01/f.log";
              log "a/dag_id=y/run_id=n__2024-06-01/f.log"] 100).
  - reflexivity.
  - repeat constructor; eexists; reflexivity.
Defined.

(** ** The deleter *)

Lemma delete_loop_stops (St : Type) (self : AfLogsCleaner St)
    (before : list Object) (file : Object) (after : list Object)
    (w : world St) (st1 st2 : St) (e : exn) :
  remove_all self before (minio w) = Some st1 ->
  remove_object (client self) (dag_logs_bucket self) (object_name file) st1
    = (st2, Some e) ->
  delete_loop self (before ++ file :: after) w
  = (Raise e,
     World st2
       (removals w ++ map (request self) (before ++ [file]))
       (stdout w ++ map deleted_line before)).
Proof.
  revert w. induction before as [|f before IH]; intros [st rs out] Hall Hfail.
  - simpl in Hall. injection Hall as <-. simpl. rewrite Hfail.
    now rewrite app_nil_r.
  - cbn [remove_all minio] in Hall. cbn [app delete_loop minio removals stdout].
    destruct (remove_object (client self) (dag_logs_bucket self) (object_name f) st)
      as [st' [e'|]]; [discriminate|].
    erewrite IH; [|exact Hall|exact Hfail].
    unfold print, deleted_line, request. cbn [minio removals stdout map app].
    rewrite <- !app_assoc. reflexivity.
Qed.

Lemma delete_loop_all (St : Type) (self : AfLogsCleaner St)
    (files : list Object) (w : world St) (st' : St) :
  remove_all self files (minio w) = Some st' ->
  delete_loop self files w
  = (Ok tt,
     World st' (removals w ++ map (request self) files)
       (stdout w ++ map deleted_line files)).
Proof.
  revert w. induction files as [|f files IH]; intros [st rs out] Hall.
  - simpl in Hall. injection Hall as <-. simpl. now rewrite !app_nil_r.
  - cbn [remove_all minio] in Hall. cbn [app delete_loop minio removals stdout].
    destruct (remove_object (client self) (dag_logs_bucket self) (object_name f) st)
      as [st1 [e'|]]; [discriminate|].
    erewrite IH; [|exact Hall].
    unfold print, deleted_line, request. cbn [minio removals stdout map app].
    rewrite <- !app_assoc. reflexivity.
Qed.

(** C3, as amended.  When the removal of one item fails, after the
    removals of the items before it succeeded, [delete_expired_logs]
    stops there: the exception of the store goes to the caller, the
    requests issued are those for the items up to the failing one, none
    for the items after it, and the lines printed are those of the items
    before it.  Nothing is returned. *)
Theorem delete_expired_logs_stops_at_failure (St : Type) (self : AfLogsCleaner St)
    (before : list Object) (file : Object) (after : list Object)
    (w : world St) (st1 st2 : St) (e : exn) :
  remove_all self before (minio w) = Some st1 ->
  remove_object (client self) (dag_logs_bucket self) (object_name file) st1
    = (st2, Some e) ->
  delete_expired_logs self (before ++ file :: after) w
  = (Raise e,
     World st2
       (removals w ++ map (request self) (before ++ [file]))
       (stdout w ++ map deleted_line before)).
Proof.
  intros Hall Hfail. unfold delete_expired_logs.
  assert (Hlen : (0 <? List.length (before ++ file :: after))%nat = true).
  { apply Nat.ltb_lt. rewrite length_app. simpl. lia. }
  rewrite Hlen. now apply delete_loop_stops with (st1 := st1).
Qed.

Lemma delete_expired_logs_stops_at_failure_witness :
  delete_expired_logs cleaner ([log "k1"] ++ log "k2" :: [log "k3"])
    (World [lit "k1"; lit "k3"] [] [])
  = (Raise ObjectNotFoundError,
     World [lit "k3"]
       ([] ++ map (request cleaner) ([log "k1"] ++ [log "k2"]))
       ([] ++ map deleted_line [log "k1"])).
Proof.
  apply (delete_expired_logs_stops_at_failure _ cleaner [log "k1"] (log "k2") [log "k3"]
           (World [lit "k1"; lit "k3"] [] []) [lit "k3"] [lit "k3"] ObjectNotFoundError);
    reflexivity.
Defined.

(** C3 as stated fails: of three items with the second one missing from
    the store, the third is never requested and stays in the store, and
    the call ends with the exception instead of a report. *)
Lemma delete_expired_logs_aborts_batch :
  delete_expired_logs cleaner [log "k1"; log "k2"; log "k3"]
    (World [lit "k1"; lit "k3"] [] [])
  = (Raise ObjectNotFoundError,
     World [lit "k3"]
       [(lit "airflow-logs", lit "k1"); (lit "airflow-logs", lit "k2")]
       [lit "Deleted logfile: k1"]).
Proof. reflexivity. Qed.

(** C9.  On the empty list no request goes to the store, whose state is
    unchanged, no line reports a deletion, and the notice is printed. *)
Theorem delete_expired_logs_nothing (St : Type) (self : AfLogsCleaner St)
    (w : world St) :
  delete_expired_logs self [] w
  = (Ok tt, World (minio w) (removals w) (stdout w ++ [lit "No logfiles to delete"])).
Proof. reflexivity. Qed.

(** * Further properties *)

(** ** The path parsers *)

(** X1.  A name that [_extract_dag_name_from_path] returns is in the
    path: it is a non-empty run of word characters, without ['/'],
    written between the first [dag_id=] that has such a run followed by
    ['/'] and that ['/']. *)
Theorem extract_dag_name_sound (path w : str) :
  _extract_dag_name_from_path path = Some w ->
  w <> [] /\ forallb is_word w = true /\ ~ In "/"%char w
  /\ exists pre post,
       path = pre ++ lit "dag_id=" ++ w ++ "/"%char :: post
       /\ first_dag_id pre path.
Proof.
  intros H. apply dag_name_Some in H as (pre & post & (E & Hw & Hp) & Hfirst).
  split; [assumption|]. split; [assumption|]. split.
  - intros Hin. rewrite forallb_forall in Hp. specialize (Hp _ Hin). discriminate.
  - exists pre, post. auto.
Qed.

Lemma extract_dag_name_sound_witness :
  lit "etl_job" <> [] /\ forallb is_word (lit "etl_job") = true
  /\ ~ In "/"%char (lit "etl_job")
  /\ exists pre post,
       lit "a/dag_id=etl_job/run_id=m__2024-01-01/f.log"
         = pre ++ lit "dag_id=" ++ lit "etl_job" ++ "/"%char :: post
       /\ first_dag_id pre (lit "a/dag_id=etl_job/run_id=m__2024-01-01/f.log").
Proof.
  apply (extract_dag_name_sound (lit "a/dag_id=etl_job/run_id=m__2024-01-01/f.log")
           (lit "etl_job")).
  reflexivity.
Defined.

Lemma extract_dagrun_dt_cases (path : str) :
  (_extract_dagrun_dt_from_path path = Ok None
   /\ forall pre x g post, ~ run_id_at pre x g post path)
  \/ (_extract_dagrun_dt_from_path path = Raise ValueError
      /\ exists pre x g post,
           run_id_at pre x g post path /\ first_run_id pre path
           /\ ~ is_calendar_date g)
  \/ (exists d pre x g post,
        _extract_dagrun_dt_from_path path = Ok (Some d)
        /\ valid d
        /\ run_id_at pre x g post path /\ first_run_id pre path
        /\ fields g = Some (year d, month d, day d)).
Proof.
  destruct (search regexp_extract_dagrun_dt path) as [m|] eqn:E.
  - apply dagrun_search_Some in E as (pre & x & g & post & Hat & Hfirst & ->).
    rewrite (extract_dagrun_dt_at path pre x g post Hat Hfirst).
    pose proof Hat as (_ & _ & _ & Hg).
    destruct (strptime_date g) as [d|e] eqn:Hs.
    + right. right. exists d, pre, x, g, post.
      destruct (strptime_ok_calendar g d Hg Hs) as (Hf & Hv). auto.
    + right. left.
      assert (Hn : ~ is_calendar_date g).
      { intros (y & mo & d & Hf & Hc).
        rewrite (strptime_calendar g y mo d Hg Hf Hc) in Hs. discriminate. }
      rewrite (strptime_not_calendar g Hg Hn) in Hs. injection Hs as <-.
      split; [reflexivity|]. exists pre, x, g, post. auto.
  - left. rewrite dagrun_search_None in E. split; [|assumption].
    now apply extract_dagrun_dt_absent.
Qed.




(** ** The expiry selector, further *)

Lemma choose_loop_app (deadline : date) (l1 l2 acc : list Object) :
  choose_loop deadline (l1 ++ l2) acc
  = (part <- choose_loop deadline l1 acc ;; choose_loop deadline l2 part).
Proof.
  revert acc. induction l1 as [|f l1 IH]; intros acc; [reflexivity|].
  cbn [app choose_loop].
  destruct (_extract_dagrun_dt_from_path (object_name f)) as [[d|]|e];
    cbn [bind lt_deadline]; [apply IH|reflexivity|reflexivity].
Qed.

Lemma choose_loop_acc (deadline : date) (l acc : list Object) :
  choose_loop deadline l acc
  = (part <- choose_loop deadline l [] ;; Ok (acc ++ part)).
Proof.
  revert acc. induction l as [|f l IH]; intros acc.
  - cbn. now rewrite app_nil_r.
  - cbn [choose_loop].
    destruct (_extract_dagrun_dt_from_path (object_name f)) as [[d|]|e];
      cbn [bind lt_deadline]; [|reflexivity|reflexivity].
    rewrite (IH (if date_lt d deadline then acc ++ [f] else acc)).
    rewrite (IH (if date_lt d deadline then [] ++ [f] else [])).
    destruct (choose_loop deadline l []) as [part|e]; [|reflexivity].
    cbn [bind]. destruct (date_lt d deadline); [|reflexivity].
    now rewrite <- app_assoc.
Qed.

Lemma choose_loop_Ok_parseable (deadline : date) (l acc out : list Object) :
  choose_loop deadline l acc = Ok out -> Forall parseable l.
Proof.
  revert acc. induction l as [|f l IH]; intros acc H; [constructor|].
  cbn [choose_loop] in H.
  destruct (_extract_dagrun_dt_from_path (object_name f)) as [[d|]|e] eqn:Hf;
    cbn [bind lt_deadline] in H; try discriminate.
  constructor; [exists d; assumption|exact (IH _ H)].
Qed.

Lemma choose_loop_raise (deadline : date) (before : list Object) (f : Object)
    (after acc : list Object) (e : exn) :
  Forall parseable before ->
  _extract_dagrun_dt_from_path (object_name f) = Raise e ->
  choose_loop deadline (before ++ f :: after) acc = Raise e.
Proof.
  intros H Hf. rewrite choose_loop_app, (choose_loop_parseable _ _ _ H).
  cbn [bind choose_loop]. now rewrite Hf.
Qed.

(** The deadline, when it is a date, and the call without it. *)
Lemma choose_expired_logs_deadline (now_dt : date) (l : list Object) (ttl_days : Z) :
  valid now_dt ->
  (1 <= toordinal now_dt - ttl_days <= _MAXORDINAL)%Z ->
  exists deadline,
    valid deadline /\ toordinal deadline = (toordinal now_dt - ttl_days)%Z
    /\ choose_expired_logs now_dt l ttl_days = choose_loop deadline l [].
Proof.
  intros Hnow Hr. pose proof (toordinal_range now_dt Hnow) as Ho.
  unfold _MAXORDINAL in *. unfold choose_expired_logs, timedelta.
  replace (999999999 <? Z.abs ttl_days)%Z with false by lia. cbn [bind].
  destruct (date_sub_ok now_dt ttl_days Hnow) as (deadline & Hd & Hv & Hord);
    [unfold _MAXORDINAL; lia|].
  exists deadline. rewrite Hd. auto.
Qed.

Lemma choose_expired_logs_overflow (now_dt : date) (l : list Object) (ttl_days : Z) :
  valid now_dt ->
  ~ (1 <= toordinal now_dt - ttl_days <= _MAXORDINAL)%Z ->
  choose_expired_logs now_dt l ttl_days = Raise OverflowError.
Proof.
  intros Hnow Hr. unfold choose_expired_logs, timedelta.
  destruct (999999999 <? Z.abs ttl_days)%Z; [reflexivity|]. cbn [bind].
  unfold date_sub, timedelta.
  destruct (999999999 <? Z.abs (- ttl_days))%Z; [reflexivity|]. cbn [bind].
  unfold date_add.
  replace ((0 <? toordinal now_dt + - ttl_days)
           && (toordinal now_dt + - ttl_days <=? _MAXORDINAL))%Z%bool
    with false by (unfold _MAXORDINAL in *; lia).
  reflexivity.
Qed.

Lemma before_deadline_expired (now_dt deadline : date) (ttl_days : Z) (l : list Object) :
  valid deadline -> toordinal deadline = (toordinal now_dt - ttl_days)%Z ->
  filter (before_deadline deadline) l = filter (expired now_dt ttl_days) l.
Proof.
  intros Hv Ho. apply filter_ext. intros f.
  unfold before_deadline, expired, execution_date.
  destruct (_extract_dagrun_dt_from_path (object_name f)) as [[d|]|e] eqn:Hd;
    try reflexivity.
  rewrite (date_lt_iff d deadline (extract_dagrun_dt_valid _ _ Hd) Hv).
  now rewrite Ho.
Qed.

Lemma choose_expired_logs_Ok_iff (now_dt : date) (log_files out : list Object)
    (ttl_days : Z) :
  valid now_dt ->
  (choose_expired_logs now_dt log_files ttl_days = Ok out <->
   (1 <= toordinal now_dt - ttl_days <= _MAXORDINAL)%Z
   /\ Forall parseable log_files
   /\ out = filter (expired now_dt ttl_days) log_files).
Proof.
  intros Hnow. split.
  - intros H.
    assert (Hr : (1 <= toordinal now_dt - ttl_days <= _MAXORDINAL)%Z).
    { destruct (Z_le_dec 1 (toordinal now_dt - ttl_days));
        [destruct (Z_le_dec (toordinal now_dt - ttl_days) _MAXORDINAL); [lia|]|];
        rewrite choose_expired_logs_overflow in H by (assumption || lia);
        discriminate. }
    split; [assumption|].
    destruct (choose_expired_logs_deadline now_dt log_files ttl_days Hnow Hr)
      as (deadline & Hv & Ho & E).
    rewrite E in H. pose proof (choose_loop_Ok_parseable _ _ _ _ H) as Hall.
    split; [assumption|].
    rewrite (choose_loop_parseable _ _ _ Hall) in H. injection H as <-.
    cbn [app]. now apply before_deadline_expired.
  - intros (Hr & Hall & ->).
    destruct (choose_expired_logs_deadline now_dt log_files ttl_days Hnow Hr)
      as (deadline & Hv & Ho & ->).
    rewrite (choose_loop_parseable _ _ _ Hall). cbn [app]. f_equal.
    now apply before_deadline_expired.
Qed.

(** X4.  When [choose_expired_logs] returns.  For a current date, the
    call returns a list exactly when the deadline, [ttl_days] days
    before the current date (after it, for a negative [ttl_days]), is
    within the dates of years 1 to 9999 and every path has a date that
    parses; the list is then that of the items dated strictly before the
    deadline, in the order of the input. *)
Theorem choose_expired_logs_returns_iff (now_dt : date) (log_files out : list Object)
    (ttl_days : Z) :
  valid now_dt ->
  (choose_expired_logs now_dt log_files ttl_days = Ok out <->
   (1 <= toordinal now_dt - ttl_days <= _MAXORDINAL)%Z
   /\ Forall parseable log_files
   /\ out = filter (expired now_dt ttl_days) log_files).
Proof. exact (choose_expired_logs_Ok_iff now_dt log_files out ttl_days). Qed.

Lemma valid_2024_06_10 : valid (Date 2024 6 10).
Proof. apply calendar_date_iff. cbv. repeat split; discriminate. Qed.

Lemma choose_expired_logs_returns_iff_witness :
  choose_expired_logs (Date 2024 6 10)
    [log "a/dag_id=x/run_id=m__2024-06-10/f.log";
     log "a/dag_id=y/run_id=n__2024-07-01/f.log"] (-1)
  = Ok [log "a/dag_id=x/run_id=m__2024-06-10/f.log"].
Proof.
  apply (proj2 (choose_expired_logs_returns_iff (Date 2024 6 10) _ _ (-1)
                  valid_2024_06_10)).
  split; [cbv; split; discriminate|].
  split; [repeat constructor; eexists; reflexivity|reflexivity].
Defined.

(** X5.  The first item whose path has no date that parses ends the
    call, whatever comes after it: with [TypeError] when the pattern is
    not in the path, with the [ValueError] of [strptime] when the date
    written is not one of the calendar. *)
Theorem choose_expired_logs_first_error (now_dt : date)
    (before : list Object) (f : Object) (after : list Object) (ttl_days : Z) :
  valid now_dt ->
  (1 <= toordinal now_dt - ttl_days <= _MAXORDINAL)%Z ->
  Forall parseable before ->
  ~ parseable f ->
  choose_expired_logs now_dt (before ++ f :: after) ttl_days
  = match _extract_dagrun_dt_from_path (object_name f) with
    | Ok _ => Raise TypeError
    | Raise _ => Raise ValueError
    end.
Proof.
  intros Hnow Hr Hall Hf.
  destruct (choose_expired_logs_deadline now_dt (before ++ f :: after) ttl_days Hnow Hr)
    as (deadline & _ & _ & ->).
  destruct (extract_dagrun_dt_cases (object_name f))
    as [(E & _)|[(E & _)|(d & pre & x & g & post & E & _)]]; rewrite E.
  - now apply choose_loop_absent.
  - now apply choose_loop_raise.
  - elim Hf. now exists d.
Qed.

Lemma choose_expired_logs_first_error_witness :
  choose_expired_logs (Date 2024 6 10)
    ([log "a/dag_id=x/run_id=m__2024-01-01/f.log"]
     ++ log "a/dag_id=x/run_id=m__2024-02-30/f.log" :: [log "a/dag_id=x/f.log"]) 100
  = Raise ValueError.
Proof.
  apply (choose_expired_logs_first_error (Date 2024 6 10)
           [log "a/dag_id=x/run_id=m__2024-01-01/f.log"]
           (log "a/dag_id=x/run_id=m__2024-02-30/f.log")
           [log "a/dag_id=x/f.log"] 100 valid_2024_06_10).
  - cbv. split; discriminate.
  - repeat constructor; eexists; reflexivity.
  - intros (d & Hd). discriminate Hd.
Defined.

(** X6.  Selecting piece by piece: the selection from a sequence cut in
    two is the selection from the first piece followed by that from the
    second, and the exception is the same when there is one. *)
Theorem choose_expired_logs_app (now_dt : date) (l1 l2 : list Object) (ttl_days : Z) :
  choose_expired_logs now_dt (l1 ++ l2) ttl_days
  = (out1 <- choose_expired_logs now_dt l1 ttl_days ;;
     out2 <- choose_expired_logs now_dt l2 ttl_days ;;
     Ok (out1 ++ out2)).
Proof.
  unfold choose_expired_logs.
  destruct (timedelta ttl_days) as [delta|e]; [|reflexivity]. cbn [bind].
  destruct (date_sub now_dt delta) as [deadline|e]; [|reflexivity]. cbn [bind].
  rewrite choose_loop_app.
  destruct (choose_loop deadline l1 []) as [out1|e]; [|reflexivity]. cbn [bind].
  apply choose_loop_acc.
Qed.

(** X7.  A longer retention selects from what a shorter one selects: for
    [ttl1 <= ttl2], both with a deadline that is a date, selecting with
    [ttl2] from the result of selecting with [ttl1] gives what selecting
    with [ttl2] from the input gives; so no item is selected with [ttl2]
    that is not selected with [ttl1]. *)
Theorem choose_expired_logs_longer_ttl (now_dt : date) (log_files : list Object)
    (ttl1 ttl2 : Z) :
  valid now_dt ->
  Forall parseable log_files ->
  (ttl1 <= ttl2)%Z ->
  (1 <= toordinal now_dt - ttl2)%Z ->
  (toordinal now_dt - ttl1 <= _MAXORDINAL)%Z ->
  (out1 <- choose_expired_logs now_dt log_files ttl1 ;;
   choose_expired_logs now_dt out1 ttl2)
  = choose_expired_logs now_dt log_files ttl2
  /\ forall out1 out2,
       choose_expired_logs now_dt log_files ttl1 = Ok out1 ->
       choose_expired_logs now_dt log_files ttl2 = Ok out2 ->
       forall f, In f out2 -> In f out1.
Proof.
  intros Hnow Hall Hle H2 H1.
  assert (E1 : choose_expired_logs now_dt log_files ttl1
               = Ok (filter (expired now_dt ttl1) log_files)).
  { apply choose_expired_logs_Ok_iff; [assumption|].
    split; [lia|]. split; [assumption|reflexivity]. }
  assert (E2 : choose_expired_logs now_dt log_files ttl2
               = Ok (filter (expired now_dt ttl2) log_files)).
  { apply choose_expired_logs_Ok_iff; [assumption|].
    split; [lia|]. split; [assumption|reflexivity]. }
  assert (Himp : forall f, expired now_dt ttl2 f = true -> expired now_dt ttl1 f = true).
  { intros f. unfold expired. destruct (execution_date f); [lia|discriminate]. }
  split.
  - rewrite E1, E2. cbn [bind]. apply choose_expired_logs_Ok_iff; [assumption|].
    split; [lia|]. split; [now apply Forall_filter|].
    clear E1 E2. induction log_files as [|f l IH]; [reflexivity|].
    inversion Hall; subst. cbn [filter].
    destruct (expired now_dt ttl2 f) eqn:Ef2.
    + rewrite (Himp f Ef2). cbn [filter]. rewrite Ef2. f_equal. now apply IH.
    + destruct (expired now_dt ttl1 f); [cbn [filter]; rewrite Ef2|]; now apply IH.
  - intros out1 out2 Ho1 Ho2 f Hin. rewrite E1 in Ho1. rewrite E2 in Ho2.
    injection Ho1 as <-. injection Ho2 as <-.
    apply filter_In in Hin as [Hin Hf]. apply filter_In. auto.
Qed.

Lemma choose_expired_logs_longer_ttl_witness :
  (out1 <- choose_expired_logs (Date 2024 6 10)
      [log "a/dag_id=x/run_id=m__2024-01-01/f.log";
       log "a/dag_id=y/run_id=n__2024-06-01/f.log"] 5 ;;
   choose_expired_logs (Date 2024 6 10) out1 100)
  = choose_expired_logs (Date 2024 6 10)
      [log "a/dag_id=x/run_id=m__2024-01-01/f.log";
       log "a/dag_id=y/run_id=n__2024-06-01/f.log"] 100.
Proof.
  apply (proj1 (choose_expired_logs_longer_ttl (Date 2024 6 10)
                  [log "a/dag_id=x/run_id=m__2024-01-01/f.log";
                   log "a/dag_id=y/run_id=n__2024-06-01/f.log"] 5 100
                  valid_2024_06_10
                  ltac:(repeat constructor; eexists; reflexivity)
                  ltac:(discriminate) ltac:(discriminate) ltac:(discriminate))).
Defined.

(** ** The deadline by the calendar *)

Lemma iter_tomorrow (n : nat) (d : date) :
  valid d -> (toordinal d + Z.of_nat n <= _MAXORDINAL)%Z ->
  valid (Nat.iter n tomorrow d)
  /\ toordinal (Nat.iter n tomorrow d) = (toordinal d + Z.of_nat n)%Z.
Proof.
  intros Hd. induction n as [|n IH]; intros Hn.
  - change (Nat.iter 0 tomorrow d) with d. split; [assumption|cbn; lia].
  - destruct IH as (Hv & Ho); [lia|].
    change (Nat.iter (S n) tomorrow d) with (tomorrow (Nat.iter n tomorrow d)).
    destruct (toordinal_tomorrow (Nat.iter n tomorrow d) Hv) as (Hv' & Ho'); [lia|].
    split; [assumption|]. lia.
Qed.

(** X8.  The deadline is a date of the calendar: for [ttl_days] from 0
    up to, not including, the ordinal of the current date, and paths
    that all have a date that parses, the items returned are those dated
    before, in the order of dates (year, then month, then day), the date
    from which [ttl_days] steps to the next day lead to the current
    date, leap years taken into account. *)
Theorem choose_expired_logs_calendar_deadline (now_dt : date)
    (log_files : list Object) (ttl_days : Z) :
  valid now_dt ->
  Forall parseable log_files ->
  (0 <= ttl_days < toordinal now_dt)%Z ->
  exists deadline,
    valid deadline
    /\ Nat.iter (Z.to_nat ttl_days) tomorrow deadline = now_dt
    /\ choose_expired_logs now_dt log_files ttl_days
       = Ok (filter (before_deadline deadline) log_files).
Proof.
  intros Hnow Hall Httl. pose proof (toordinal_range now_dt Hnow) as Hr.
  destruct (choose_expired_logs_deadline now_dt log_files ttl_days Hnow)
    as (deadline & Hv & Ho & E); [lia|].
  exists deadline. split; [assumption|]. split.
  - destruct (iter_tomorrow (Z.to_nat ttl_days) deadline Hv) as (Hv' & Ho'); [lia|].
    apply toordinal_inj; [assumption|assumption|]. lia.
  - rewrite E. now rewrite (choose_loop_parseable _ _ _ Hall).
Qed.

Lemma choose_expired_logs_calendar_deadline_witness :
  exists deadline,
    valid deadline
    /\ Nat.iter (Z.to_nat 100) tomorrow deadline = Date 2024 6 10
    /\ choose_expired_logs (Date 2024 6 10)
         [log "a/dag_id=x/run_id=m__2024-01-01/f.log";
          log "a/dag_id=y/run_id=n__2024-06-01/f.log"] 100
       = Ok (filter (before_deadline deadline)
               [log "a/dag_id=x/run_id=m__2024-01-01/f.log";
                log "a/dag_id=y/run_id=n__2024-06-01/f.log"]).
Proof.
  apply (choose_expired_logs_calendar_deadline (Date 2024 6 10)
           [log "a/dag_id=x/run_id=m__2024-01-01/f.log";
            log "a/dag_id=y/run_id=n__2024-06-01/f.log"] 100 valid_2024_06_10).
  - repeat constructor; eexists; reflexivity.
  - cbv. split; [discriminate|reflexivity].
Defined.

(** ** The deleter, further *)

(** X9.  When every removal succeeds, on a list that is not empty, the
    call returns after one request for each item, in the order of the
    list, and one line for each, in the same order; the notice of the
    empty list is not printed. *)
Theorem delete_expired_logs_all_removed (St : Type) (self : AfLogsCleaner St)
    (log_files : list Object) (w : world St) (st' : St) :
  log_files <> [] ->
  remove_all self log_files (minio w) = Some st' ->
  delete_expired_logs self log_files w
  = (Ok tt,
     World st' (removals w ++ map (request self) log_files)
       (stdout w ++ map deleted_line log_files)).
Proof.
  intros Hne Hall. unfold delete_expired_logs.
  destruct log_files as [|f l]; [congruence|]. cbn [List.length Nat.ltb Nat.leb].
  now apply delete_loop_all.
Qed.

Lemma delete_expired_logs_all_removed_witness :
  delete_expired_logs cleaner [log "k1"; log "k3"]
    (World [lit "k1"; lit "k2"; lit "k3"] [] [])
  = (Ok tt,
     World [lit "k2"]
       ([] ++ map (request cleaner) [log "k1"; log "k3"])
       ([] ++ map deleted_line [log "k1"; log "k3"])).
Proof.
  apply (delete_expired_logs_all_removed _ cleaner [log "k1"; log "k3"]
           (World [lit "k1"; lit "k2"; lit "k3"] [] []) [lit "k2"]).
  - discriminate.
  - reflexivity.
Defined.

Lemma delete_loop_prefix (St : Type) (self : AfLogsCleaner St)
    (log_files : list Object) (w : world St) :
  exists k,
    k <= List.length log_files
    /\ removals (snd (delete_loop self log_files w))
       = removals w ++ map (request self) (firstn k log_files)
    /\ match fst (delete_loop self log_files w) with
       | Ok _ =>
           k = List.length log_files
           /\ stdout (snd (delete_loop self log_files w))
              = stdout w ++ map deleted_line log_files
       | Raise _ =>
           1 <= k
           /\ stdout (snd (delete_loop self log_files w))
              = stdout w ++ map deleted_line (firstn (k - 1) log_files)
       end.
Proof.
  revert w. induction log_files as [|f l IH]; intros w.
  - exists 0. cbn. rewrite !app_nil_r. auto.
  - cbn [delete_loop].
    destruct (remove_object (client self) (dag_logs_bucket self) (object_name f) (minio w))
      as [st [e|]].
    + exists 1. cbn. rewrite app_nil_r. repeat split; lia.
    + destruct (IH (print (lit "Deleted logfile: " ++ object_name f)
                      (World st (removals w ++ [(dag_logs_bucket self, object_name f)])
                         (stdout w)))) as (k & Hk & Hr & Hres).
      exists (S k). split; [cbn; lia|]. split.
      * rewrite Hr. cbn [print removals firstn map]. rewrite <- app_assoc. reflexivity.
      * destruct (fst (delete_loop self l _)).
        -- destruct Hres as (-> & Hs). split; [reflexivity|].
           rewrite Hs. cbn [print stdout map]. rewrite <- app_assoc. reflexivity.
        -- destruct Hres as (Hk1 & Hs). split; [lia|].
           rewrite Hs. cbn [print stdout]. rewrite <- app_assoc.
           replace (S k - 1) with (S (k - 1)) by lia. reflexivity.
Qed.

(** X10.  Whatever the store answers, the requests of a call are those
    for the first [k] items of the list, in order, once each: nothing is
    requested that is not in the list, and nothing after a failure.  A
    call that returns has requested all the items; a call that raises
    has printed a line for each of the [k - 1] items before the failing
    one and none for it. *)
Theorem delete_expired_logs_requests_prefix (St : Type) (self : AfLogsCleaner St)
    (log_files : list Object) (w : world St) :
  exists k,
    k <= List.length log_files
    /\ removals (snd (delete_expired_logs self log_files w))
       = removals w ++ map (request self) (firstn k log_files)
    /\ match fst (delete_expired_logs self log_files w) with
       | Ok _ => k = List.length log_files
       | Raise _ =>
           1 <= k
           /\ stdout (snd (delete_expired_logs self log_files w))
              = stdout w ++ map deleted_line (firstn (k - 1) log_files)
       end.
Proof.
  unfold delete_expired_logs. destruct log_files as [|f l].
  - exists 0. cbn. rewrite app_nil_r. auto.
  - cbn [List.length Nat.ltb Nat.leb].
    destruct (delete_loop_prefix St self (f :: l) w) as (k & Hk & Hr & Hres).
    exists k. split; [assumption|]. split; [assumption|].
    destruct (fst (delete_loop self (f :: l) w)); [tauto|assumption].
Qed.

Lemma delete_loop_app (St : Type) (self : AfLogsCleaner St)
    (l1 l2 : list Object) (w : world St) :
  delete_loop self (l1 ++ l2) w
  = match fst (delete_loop self l1 w) with
    | Ok _ => delete_loop self l2 (snd (delete_loop self l1 w))
    | Raise e => (Raise e, snd (delete_loop self l1 w))
    end.
Proof.
  revert w. induction l1 as [|f l1 IH]; intros w; [reflexivity|].
  cbn [app delete_loop].
  destruct (remove_object (client self) (dag_logs_bucket self) (object_name f) (minio w))
    as [st [e|]]; [reflexivity|]. apply IH.
Qed.

(** X11.  Deleting in two batches: for two lists, neither empty, the
    call on the one followed by the other does what the call on the
    first, then, if it returned, the call on the second do; if the first
    raises, the second is not begun. *)
Theorem delete_expired_logs_app (St : Type) (self : AfLogsCleaner St)
    (l1 l2 : list Object) (w : world St) :
  l1 <> [] -> l2 <> [] ->
  delete_expired_logs self (l1 ++ l2) w
  = match fst (delete_expired_logs self l1 w) with
    | Ok _ => delete_expired_logs self l2 (snd (delete_expired_logs self l1 w))
    | Raise e => (Raise e, snd (delete_expired_logs self l1 w))
    end.
Proof.
  intros H1 H2. unfold delete_expired_logs.
  destruct l1 as [|f1 l1]; [congruence|]. destruct l2 as [|f2 l2]; [congruence|].
  cbn [app List.length Nat.ltb Nat.leb]. apply (delete_loop_app St self (f1 :: l1)).
Qed.

Lemma delete_expired_logs_app_witness :
  delete_expired_logs cleaner ([log "k1"] ++ [log "k3"])
    (World [lit "k1"; lit "k2"; lit "k3"] [] [])
  = match fst (delete_expired_logs cleaner [log "k1"]
                 (World [lit "k1"; lit "k2"; lit "k3"] [] [])) with
    | Ok _ =>
        delete_expired_logs cleaner [log "k3"]
          (snd (delete_expired_logs cleaner [log "k1"]
                  (World [lit "k1"; lit "k2"; lit "k3"] [] [])))
    | Raise e =>
        (Raise e, snd (delete_expired_logs cleaner [log "k1"]
                         (World [lit "k1"; lit "k2"; lit "k3"] [] [])))
    end.
Proof.
  apply (delete_expired_logs_app _ cleaner [log "k1"] [log "k3"]); discriminate.
Defined.

(** ** The lister, and the three steps in a row *)

Lemma list_log_files_filter (St : Type) (self : AfLogsCleaner St)
    (dag_names : option (list str)) (st : St) :
  list_log_files self dag_names st
  = (filter (wanted dag_names)
       (fst (list_objects (client self) (dag_logs_bucket self) true st)),
     snd (list_objects (client self) (dag_logs_bucket self) true st)).
Proof.
  unfold list_log_files.
  destruct (list_objects (client self) (dag_logs_bucket self) true st) as [objects e].
  cbn [fst snd].
  destruct dag_names as [[|n0 names]|]; cbn [given]; f_equal;
    apply filter_ext; intros obj; unfold wanted;
    try (rewrite truthy_dag_name;
         now destruct (_extract_dag_name_from_path (object_name obj))).
  destruct (_extract_dag_name_from_path (object_name obj)) as [n|]; [|reflexivity].
  apply py_in_spec.
Qed.

Lemma filter_filter_imp (A : Type) (p q : A -> bool) (l : list A) :
  (forall a, p a = true -> q a = true) ->
  filter p (filter q l) = filter p l.
Proof.
  intros H. induction l as [|a l IH]; [reflexivity|]. cbn [filter].
  destruct (q a) eqn:Hq; cbn [filter].
  - now rewrite IH.
  - destruct (p a) eqn:Hp; [|assumption]. rewrite (H a Hp) in Hq. discriminate.
Qed.

(** X12.  Names narrow the listing: what [list_log_files] yields for
    given names is what it yields with no names given, cut down to the
    objects whose workflow name is among the names, in the same order
    and with the same end of the listing. *)
Theorem list_log_files_names_narrow (St : Type) (self : AfLogsCleaner St)
    (names : list str) (st : St) :
  list_log_files self (Some names) st
  = (filter (wanted (Some names)) (fst (list_log_files self None st)),
     snd (list_log_files self None st)).
Proof.
  rewrite !list_log_files_filter. cbn [fst snd]. f_equal.
  symmetry. apply filter_filter_imp. intros obj. unfold wanted.
  destruct (_extract_dag_name_from_path (object_name obj)); [reflexivity|discriminate].
Qed.

Lemma In_firstn (A : Type) (k : nat) (l : list A) (a : A) :
  In a (firstn k l) -> In a l.
Proof.
  revert l. induction k as [|k IH]; intros [|b l] H; cbn in H; try contradiction.
  destruct H as [->|H]; [now left|right; now apply IH].
Qed.

(** X13.  Lister, selector and deleter in a row never ask the store to
    remove an object that is not expired, or not of the workflows named,
    or not in the listing: if the selection from the listing returns
    [out] and the deleter is then called on [out], each request it adds
    is for an object of the listing that the lister was to yield and
    that is dated strictly before the deadline. *)
Theorem cleanup_requests_only_expired (St : Type) (self : AfLogsCleaner St)
    (dag_names : option (list str)) (now_dt : date) (ttl_days : Z)
    (w : world St) (out : list Object) :
  valid now_dt ->
  choose_expired_logs now_dt (fst (list_log_files self dag_names (minio w))) ttl_days
    = Ok out ->
  exists k,
    removals (snd (delete_expired_logs self out w))
    = removals w ++ map (request self) (firstn k out)
    /\ forall f, In f (firstn k out) ->
         In f (fst (list_objects (client self) (dag_logs_bucket self) true (minio w)))
         /\ wanted dag_names f = true
         /\ expired now_dt ttl_days f = true.
Proof.
  intros Hnow Hout.
  apply choose_expired_logs_Ok_iff in Hout as (_ & _ & ->); [|assumption].
  unfold delete_expired_logs.
  set (out := filter (expired now_dt ttl_days)
                (fst (list_log_files self dag_names (minio w)))).
  assert (Hsel : forall k f, In f (firstn k out) ->
            In f (fst (list_objects (client self) (dag_logs_bucket self) true (minio w)))
            /\ wanted dag_names f = true /\ expired now_dt ttl_days f = true).
  { intros k f Hin. apply In_firstn in Hin. unfold out in Hin.
    apply filter_In in Hin as [Hin He]. rewrite list_log_files_filter in Hin.
    cbn [fst] in Hin. apply filter_In in Hin as [Hin Hw]. auto. }
  destruct out as [|f l] eqn:Eout.
  - exists 0. cbn. rewrite app_nil_r. split; [reflexivity|]. intros f [].
  - cbn [List.length Nat.ltb Nat.leb].
    destruct (delete_loop_prefix St self (f :: l) w) as (k & _ & Hr & _).
    exists k. split; [assumption|]. apply Hsel.
Qed.

Lemma cleanup_requests_only_expired_witness :
  exists k,
    removals (snd (delete_expired_logs cleaner
                     [log "a/dag_id=x/run_id=m__2024-01-01/f.log"]
                     (World [lit "a/dag_id=x/run_id=m__2024-01-01/f.log";
                             lit "a/dag_id=y/run_id=n__2024-06-01/f.log";
                             lit "a/notes.txt"] [] [])))
    = [] ++ map (request cleaner)
              (firstn k [log "a/dag_id=x/run_id=m__2024-01-01/f.log"])
    /\ forall f, In f (firstn k [log "a/dag_id=x/run_id=m__2024-01-01/f.log"]) ->
         In f (fst (list_objects (client cleaner) (dag_logs_bucket cleaner) true
                      [lit "a/dag_id=x/run_id=m__2024-01-01/f.log";
                       lit "a/dag_id=y/run_id=n__2024-06-01/f.log";
                       lit "a/notes.txt"]))
         /\ wanted None f = true
         /\ expired (Date 2024 6 10) 100 f = true.
Proof.
  apply (cleanup_requests_only_expired _ cleaner None (Date 2024 6 10) 100
           (World [lit "a/dag_id=x/run_id=m__2024-01-01/f.log";
                   lit "a/dag_id=y/run_id=n__2024-06-01/f.log";
                   lit "a/notes.txt"] [] [])
           [log "a/dag_id=x/run_id=m__2024-01-01/f.log"] valid_2024_06_10).
  reflexivity.
Defined.
